(** * A shallow embedding of the room coordinator of [src/server.ts]

    The server keeps two pieces of state: the relational store (six
    tables, every one keyed by a TEXT PRIMARY KEY) and the socket.io room
    membership.  Every [socket.on(...)] handler is embedded as a
    computation in a small state / output / exception monad, so that
    an [await execute(...)] that rejects skips the rest of the handler
    exactly as it does in the source. *)

From Stdlib Require Import Ascii.
From stdpp Require Import base option numbers list gmap sets strings pretty.

Open Scope string_scope.
Open Scope Z_scope.

(** ** JavaScript values that travel through the handlers untouched *)

(** Payload fields are typed [any] in the source.  The fields that the
    server only forwards, or only tests for truthiness, are kept as
    JSON values. *)
Inductive jsval :=
  | JUndefined
  | JNull
  | JBool (b : bool)
  | JNum (z : Z)
  | JStr (s : string).

#[global] Instance jsval_eq_dec : EqDecision jsval.
Proof. solve_decision. Defined.

(** [if (v)] and [v ? a : b]. *)
Definition truthy (v : jsval) : bool :=
  match v with
  | JUndefined | JNull => false
  | JBool b => b
  | JNum z => negb (z =? 0)
  | JStr s => negb (String.eqb s "")
  end.

Definition socket_id := string.
Definition room_id := string.

(** ** The tables of [initDb] *)

Record trip_row := {
  trip_room_id : string;
  trip_title : string;
  trip_created_at : Z }.

Record room_row := {
  room_title : option string;
  room_host_id : option string;
  room_active_members : option string;
  room_ai_thinking : Z }.

Record user_row := {
  nickname : option string;
  avatar_url : option string;
  status_emoji : option string;
  rps_wins : Z;
  undo_used : Z }.

(** [lat] and [lng] are REAL columns; no handler reads or writes them, so
    they are carried as opaque values. *)
Record pin_row := {
  pin_trip_id : option string;
  pin_room_id : option string;
  place_id : option string;
  pin_name : option string;
  lat : jsval;
  lng : jsval;
  assigned_day : Z;
  time_slot : option string;
  order_idx : Z;
  locked_by : option string;
  locked_until : option string }.

(** [payload] is the column holding [JSON.stringify(payload)]; the row
    keeps the value that text encodes. *)
Record canvas_event_row := {
  ev_room_id : string;
  ev_user_id : string;
  ev_type : string;
  ev_payload : jsval;
  created_at : Z;
  is_undone : Z }.

Record message_row := {
  msg_room_id : string;
  sender_id : string;
  msg_type : string;
  content : string;
  target_user_id : option string;
  action_payload : option string;
  msg_created_at : Z }.

#[global] Instance trip_row_eq_dec : EqDecision trip_row.
Proof. solve_decision. Defined.
#[global] Instance room_row_eq_dec : EqDecision room_row.
Proof. solve_decision. Defined.
#[global] Instance user_row_eq_dec : EqDecision user_row.
Proof. solve_decision. Defined.
#[global] Instance pin_row_eq_dec : EqDecision pin_row.
Proof. solve_decision. Defined.
#[global] Instance canvas_event_row_eq_dec : EqDecision canvas_event_row.
Proof. solve_decision. Defined.
#[global] Instance message_row_eq_dec : EqDecision message_row.
Proof. solve_decision. Defined.

(** A table maps the primary key [id] to the remaining columns. *)
Record database := {
  trips : gmap string trip_row;
  rooms : gmap string room_row;
  users : gmap string user_row;
  pins : gmap string pin_row;
  canvas_events : gmap string canvas_event_row;
  messages : gmap string message_row }.

#[global] Instance database_eq_dec : EqDecision database.
Proof. solve_decision. Defined.

Definition empty_database : database :=
  {| trips := ∅; rooms := ∅; users := ∅; pins := ∅;
     canvas_events := ∅; messages := ∅ |}.

(** [pgPool] is non-null exactly when [DATABASE_URL] is set. *)
Inductive backend := SQLite | Postgres.

#[global] Instance backend_eq_dec : EqDecision backend.
Proof. solve_decision. Defined.

(** The whole server: which store is in use, its contents, and the
    socket.io adapter's room membership ([socket.join]). *)
Record server := {
  pgPool : backend;
  db : database;
  members : gmap room_id (gset socket_id) }.

#[global] Instance server_eq_dec : EqDecision server.
Proof. solve_decision. Defined.

Definition with_db (d : database) (σ : server) : server :=
  {| pgPool := pgPool σ; db := d; members := members σ |}.

Definition with_members (m : gmap room_id (gset socket_id)) (σ : server) : server :=
  {| pgPool := pgPool σ; db := db σ; members := m |}.

(** What one handler run reads from outside the program. *)
Record env := {
  now : Z;               (* first [Date.now()] of the handler *)
  later : Z;             (* a second clock reading in the same handler *)
  rand : string;         (* [Math.random().toString(36).substr(2, 9)] *)
  db_now : Z;            (* the store's CURRENT_TIMESTAMP *)
  read_ok : bool;        (* the store answers the handler's SELECT *)
  write_ok : bool;       (* the store performs the handler's write *)
  tie : nat }.           (* which of several equal [created_at] rows comes first *)

(** ** Outbound events *)

Inductive out_event :=
  | SYNC_TRIPS (rows : list (string * trip_row))
  | USER_JOINED (userId : socket_id)
  | PROFILE_UPDATED (userId nick avatarUrl : string)
  | USER_CURSOR_MOVED (userId : string) (center : jsval)
  | TRIP_CREATED (id roomId title : string)
  | SYNC_PINS (rows : list (string * pin_row))
  | SYNC_ACTION (actionId userId type : string) (payload : jsval)
  | UNDO_EXECUTE (actionId : string)
  | SUMMON_ALERT (fromId targetUserId : string) (coords : jsval) (expiresAt : Z)
  | PIN_DRAG_START (pinId userId : string)
  | BATTLE_START (pinId userA userB : string)
  | RPS_CHOICE_RECEIVED (battleId userId choice : string)
  | BATTLE_RESULT_SYNC (winnerId pinId : string)
  | START_VOTE (voteId pinId : string) (targetDay : Z) (initiatorId : string)
      (expiresAt : Z)
  | VOTE_RECEIVED (voteId userId : string) (isAgree : jsval)
  | VOTE_RESULT_SYNC (success : jsval) (pinId : string) (targetDay : Z)
  | PIN_TIME_UPDATED (pinId timeSlot : string) (day : Z)
  | SYNC_MESSAGE (id userId text : string) (createdAt : Z)
  | AI_STATE (isThinking : jsval).

#[global] Instance out_event_eq_dec : EqDecision out_event.
Proof. solve_decision. Defined.

(** One [emit]: the sockets it reaches, resolved when it is made. *)
Definition delivery : Type := gset socket_id * out_event.

(** ** Inbound events, one constructor per [socket.on] *)

Inductive in_event :=
  | join_room (roomId : room_id)
  | UPDATE_PROFILE (roomId : room_id) (userId nick avatarUrl : string)
  | MOVE_CURSOR (roomId : room_id) (userId : string) (center : jsval)
  | CREATE_TRIP (roomId : room_id) (title : string)
  | GET_PINS (tripId : string)
  | DRAW_ACTION (roomId : room_id) (userId type : string) (payload : jsval)
  | UNDO_REQUEST (roomId : room_id)
  | SUMMON_USER (roomId : room_id) (fromId targetUserId : string) (coords : jsval)
  | DRAG_PIN (roomId : room_id) (pinId userId : string)
  | BATTLE_START_TRIGGER (roomId : room_id) (pinId userA userB : string)
  | RPS_CHOICE (roomId : room_id) (battleId userId choice : string)
  | BATTLE_RESULT (roomId : room_id) (winnerId pinId : string)
  | DROP_PIN (roomId : room_id) (pinId : string) (targetDay : Z) (userId : string)
  | SUBMIT_VOTE (roomId : room_id) (voteId userId : string) (isAgree : jsval)
  | VOTE_FINAL_RESULT (roomId : room_id) (success : jsval) (pinId : string)
      (targetDay : Z)
  | SET_PIN_TIME (roomId : room_id) (pinId timeSlot : string) (day : Z)
  | SEND_MESSAGE (roomId : room_id) (userId text : string)
  | SET_AI_STATE (roomId : room_id) (isThinking : jsval).

(** ** The handler monad: state, emitted events, rejection *)

Record world := {
  srv : server;
  outbox : list delivery }.

Inductive outcome (A : Type) :=
  | Fulfilled (a : A)
  | Rejected.
Arguments Fulfilled {A} a.
Arguments Rejected {A}.

Definition M (A : Type) : Type := world → outcome A * world.

Definition ret {A} (a : A) : M A := λ w, (Fulfilled a, w).

Definition bind {A B} (c : M A) (k : A → M B) : M B :=
  λ w, match c w with
       | (Fulfilled a, w') => k a w'
       | (Rejected, w') => (Rejected, w')
       end.

Definition throw {A} : M A := λ w, (Rejected, w).

Notation "'let*' x := c 'in' k" := (bind c (λ x, k))
  (at level 10, x name, c at level 100, k at level 200).
Notation "c >> k" := (bind c (λ _, k))
  (at level 100, k at level 200, right associativity).

Definition get_server : M server := λ w, (Fulfilled (srv w), w).

Definition put_db (d : database) : M unit :=
  λ w, (Fulfilled (), {| srv := with_db d (srv w); outbox := outbox w |}).

Definition emit (to : gset socket_id) (e : out_event) : M unit :=
  λ w, (Fulfilled (), {| srv := srv w; outbox := outbox w ++ [(to, e)] |}).

(** ** socket.io *)

Definition in_room (σ : server) (r : room_id) : gset socket_id :=
  default ∅ (members σ !! r).

(** [socket.join(roomId)] *)
Definition socket_join (s : socket_id) (r : room_id) : M unit :=
  λ w, (Fulfilled (),
        {| srv := with_members (<[r := {[s]} ∪ in_room (srv w) r]> (members (srv w)))
                    (srv w);
           outbox := outbox w |}).

(** [socket.emit(...)]: to this socket only. *)
Definition socket_emit (s : socket_id) (e : out_event) : M unit :=
  emit {[s]} e.

(** [io.to(roomId).emit(...)]: to every socket in the room. *)
Definition io_to_emit (r : room_id) (e : out_event) : M unit :=
  let* σ := get_server in emit (in_room σ r) e.

(** [socket.to(roomId).emit(...)]: to every socket in the room but this one. *)
Definition socket_to_emit (s : socket_id) (r : room_id) (e : out_event) : M unit :=
  let* σ := get_server in emit (in_room σ r ∖ {[s]}) e.

(** ** The database abstraction: [query], [get], [execute] *)

(** Offsets of the [?] characters of a statement, counted from [i]. *)
Fixpoint question_marks (sql : string) (i : nat) : list nat :=
  match sql with
  | EmptyString => []
  | String c rest =>
      if Ascii.eqb c "?"%char then i :: question_marks rest (S i)
      else question_marks rest (S i)
  end.

(** [sql.replace(/\?/g, (_, i) => `$${i + 1}`)].  The regular expression
    has no capture group, so the second argument of the callback is the
    offset of the match: the [?] found at offset [i] becomes [$(i+1)].
    The result is the list of parameter numbers written, left to right. *)
Definition pg_placeholders (sql : string) : list nat :=
  (λ i, i + 1)%nat <$> question_marks sql 0.

(** PostgreSQL binds the k-th supplied value to [$k]; a statement is
    prepared and bound only when it refers to exactly [$1 .. $n] for the
    [n] values supplied.  The numbers written by [pg_placeholders] grow
    from left to right, so that is the case exactly when they are
    [1, 2, .., n]. *)
Definition pg_accepts (sql : string) (params : nat) : bool :=
  bool_decide (pg_placeholders sql = seq 1 params).

(** Whether the store runs a statement sent through [query], [get] or
    [execute]: it must be reachable, and on the [pgPool] branch the
    rewritten text must be one PostgreSQL accepts.  The other branch,
    [db.prepare(sql)], takes the [?] text as it is. *)
Definition helper_runs (b : backend) (up : bool) (sql : string) (params : nat) : bool :=
  up && match b with
        | SQLite => true
        | Postgres => pg_accepts sql params
        end.

(** [query] and [get]: a rejected promise when the statement does not
    run, the selected rows ([get]: the first of them) otherwise. *)
Definition query {A} (up : bool) (sql : string) (params : nat)
    (select : database → A) : M A :=
  let* σ := get_server in
  if helper_runs (pgPool σ) up sql params then ret (select (db σ)) else throw.

Definition get {A} (up : bool) (sql : string) (params : nat)
    (select : database → A) : M A :=
  query up sql params select.

(** [execute]: the statement's effect, or a rejected promise when it does
    not run or violates the primary key ([None]). *)
Definition execute (up : bool) (sql : string) (params : nat)
    (effect : database → option database) : M unit :=
  let* σ := get_server in
  if helper_runs (pgPool σ) up sql params then
    match effect (db σ) with
    | Some d => put_db d
    | None => throw
    end
  else throw.

(** The direct [pgPool.query(...)] / [db.prepare(...).run(...)] pair of
    UPDATE_PROFILE: the PostgreSQL text is written with [$1, $2, $3] by
    hand, so both branches run whenever the store is reachable. *)
Definition run_direct (up : bool) (effect : database → option database) : M unit :=
  let* σ := get_server in
  if up then
    match effect (db σ) with
    | Some d => put_db d
    | None => throw
    end
  else throw.

(** ** What each SQL statement of the handlers does *)

Definition sql_select_trips := "SELECT * FROM trips WHERE room_id = ?".

Definition select_trips (r : room_id) (d : database) : list (string * trip_row) :=
  filter (λ kv, trip_room_id kv.2 = r) (map_to_list (trips d)).

(** [INSERT INTO users ... ON CONFLICT(id) DO UPDATE SET nickname, avatar_url]:
    a new row takes the column defaults, an existing row keeps its other
    columns. *)
Definition upsert_user (id nick avatarUrl : string) (d : database) : option database :=
  let row :=
    match users d !! id with
    | Some u => {| nickname := Some nick; avatar_url := Some avatarUrl;
                   status_emoji := status_emoji u; rps_wins := rps_wins u;
                   undo_used := undo_used u |}
    | None => {| nickname := Some nick; avatar_url := Some avatarUrl;
                 status_emoji := None; rps_wins := 0; undo_used := 0 |}
    end in
  Some {| trips := trips d; rooms := rooms d; users := <[id := row]> (users d);
          pins := pins d; canvas_events := canvas_events d;
          messages := messages d |}.

Definition sql_insert_trip := "INSERT INTO trips (id, room_id, title) VALUES (?, ?, ?)".

Definition insert_trip (id : string) (r : room_id) (title : string) (t : Z)
    (d : database) : option database :=
  match trips d !! id with
  | Some _ => None
  | None =>
      Some {| trips := <[id := {| trip_room_id := r; trip_title := title;
                                  trip_created_at := t |}]> (trips d);
              rooms := rooms d; users := users d; pins := pins d;
              canvas_events := canvas_events d; messages := messages d |}
  end.

Definition sql_select_pins := "SELECT * FROM pins WHERE trip_id = ?".

Definition select_pins (tripId : string) (d : database) : list (string * pin_row) :=
  filter (λ kv, pin_trip_id kv.2 = Some tripId) (map_to_list (pins d)).

Definition sql_insert_canvas_event := "
        INSERT INTO canvas_events (id, room_id, user_id, type, payload)
        VALUES (?, ?, ?, ?, ?)
      ".

Definition insert_canvas_event (id : string) (r : room_id) (userId type : string)
    (payload : jsval) (t : Z) (d : database) : option database :=
  match canvas_events d !! id with
  | Some _ => None
  | None =>
      Some {| trips := trips d; rooms := rooms d; users := users d; pins := pins d;
              canvas_events :=
                <[id := {| ev_room_id := r; ev_user_id := userId; ev_type := type;
                           ev_payload := payload; created_at := t;
                           is_undone := 0 |}]> (canvas_events d);
              messages := messages d |}
  end.

Definition sql_select_last_event := "
        SELECT * FROM canvas_events 
        WHERE room_id = ? AND is_undone = 0 
        ORDER BY created_at DESC LIMIT 1
      ".

(** [WHERE room_id = ? AND is_undone = 0] *)
Definition live_events (r : room_id) (evs : gmap string canvas_event_row)
    : list (string * canvas_event_row) :=
  filter (λ kv, ev_room_id kv.2 = r ∧ is_undone kv.2 = 0) (map_to_list evs).

(** The rows that [ORDER BY created_at DESC] may put first: those no
    other row is newer than. *)
Definition newest (l : list (string * canvas_event_row))
    : list (string * canvas_event_row) :=
  filter (λ kv, Forall (λ kv', created_at kv'.2 ≤ created_at kv.2) l) l.

(** [ORDER BY created_at DESC LIMIT 1]: SQL leaves the order of rows with
    equal [created_at] to the engine; [tie] is the engine's choice. *)
Definition select_last_event (r : room_id) (tie : nat) (d : database)
    : option (string * canvas_event_row) :=
  let top := newest (live_events r (canvas_events d)) in
  top !! (tie mod length top)%nat.

Definition sql_mark_undone := "UPDATE canvas_events SET is_undone = 1 WHERE id = ?".

Definition set_undone (ev : canvas_event_row) : canvas_event_row :=
  {| ev_room_id := ev_room_id ev; ev_user_id := ev_user_id ev; ev_type := ev_type ev;
     ev_payload := ev_payload ev; created_at := created_at ev; is_undone := 1 |}.

Definition mark_undone (id : string) (d : database) : option database :=
  Some {| trips := trips d; rooms := rooms d; users := users d; pins := pins d;
          canvas_events := alter set_undone id (canvas_events d);
          messages := messages d |}.

Definition with_pins (p : gmap string pin_row) (d : database) : database :=
  {| trips := trips d; rooms := rooms d; users := users d; pins := p;
     canvas_events := canvas_events d; messages := messages d |}.

Definition sql_update_assigned_day := "UPDATE pins SET assigned_day = ? WHERE id = ?".

Definition set_assigned_day (day : Z) (p : pin_row) : pin_row :=
  {| pin_trip_id := pin_trip_id p; pin_room_id := pin_room_id p;
     place_id := place_id p; pin_name := pin_name p; lat := lat p; lng := lng p;
     assigned_day := day; time_slot := time_slot p; order_idx := order_idx p;
     locked_by := locked_by p; locked_until := locked_until p |}.

Definition update_assigned_day (day : Z) (pinId : string) (d : database)
    : option database :=
  Some (with_pins (alter (set_assigned_day day) pinId (pins d)) d).

Definition sql_update_pin_time :=
  "UPDATE pins SET time_slot = ?, assigned_day = ? WHERE id = ?".

Definition set_pin_time (slot : string) (day : Z) (p : pin_row) : pin_row :=
  {| pin_trip_id := pin_trip_id p; pin_room_id := pin_room_id p;
     place_id := place_id p; pin_name := pin_name p; lat := lat p; lng := lng p;
     assigned_day := day; time_slot := Some slot; order_idx := order_idx p;
     locked_by := locked_by p; locked_until := locked_until p |}.

Definition update_pin_time (slot : string) (day : Z) (pinId : string) (d : database)
    : option database :=
  Some (with_pins (alter (set_pin_time slot day) pinId (pins d)) d).

Definition sql_insert_message := "
        INSERT INTO messages (id, room_id, sender_id, msg_type, content)
        VALUES (?, ?, ?, ?, ?)
      ".

Definition insert_message (id : string) (r : room_id) (userId kind text : string)
    (t : Z) (d : database) : option database :=
  match messages d !! id with
  | Some _ => None
  | None =>
      Some {| trips := trips d; rooms := rooms d; users := users d; pins := pins d;
              canvas_events := canvas_events d;
              messages :=
                <[id := {| msg_room_id := r; sender_id := userId; msg_type := kind;
                           content := text; target_user_id := None;
                           action_payload := None; msg_created_at := t |}]>
                  (messages d) |}
  end.

Definition sql_update_ai_thinking := "UPDATE rooms SET ai_thinking = ? WHERE id = ?".

Definition set_ai_thinking (v : Z) (r : room_row) : room_row :=
  {| room_title := room_title r; room_host_id := room_host_id r;
     room_active_members := room_active_members r; room_ai_thinking := v |}.

Definition update_ai_thinking (v : Z) (r : room_id) (d : database) : option database :=
  Some {| trips := trips d; rooms := alter (set_ai_thinking v) r (rooms d);
          users := users d; pins := pins d; canvas_events := canvas_events d;
          messages := messages d |}.

(** ** The handlers of [io.on("connection", ...)] *)

Section handlers.
(** The connection: [socket.id]. *)
Variable socket : socket_id.
(** What this run of the handler reads from the clock, the random
    generator and the store. *)
Variable e : env.

Definition on_join_room (roomId : room_id) : M unit :=
  socket_join socket roomId >>
  let* rows := query (read_ok e) sql_select_trips 1 (select_trips roomId) in
  socket_emit socket (SYNC_TRIPS rows) >>
  (* Notify others about presence *)
  io_to_emit roomId (USER_JOINED socket).

Definition on_UPDATE_PROFILE (roomId : room_id) (userId nick avatarUrl : string)
    : M unit :=
  run_direct (write_ok e) (upsert_user userId nick avatarUrl) >>
  io_to_emit roomId (PROFILE_UPDATED userId nick avatarUrl).

Definition on_MOVE_CURSOR (roomId : room_id) (userId : string) (center : jsval)
    : M unit :=
  socket_to_emit socket roomId (USER_CURSOR_MOVED userId center).

Definition on_CREATE_TRIP (roomId : room_id) (title : string) : M unit :=
  let id := "trip_" +:+ pretty (now e) in
  execute (write_ok e) sql_insert_trip 3 (insert_trip id roomId title (db_now e)) >>
  io_to_emit roomId (TRIP_CREATED id roomId title).

Definition on_GET_PINS (tripId : string) : M unit :=
  let* rows := query (read_ok e) sql_select_pins 1 (select_pins tripId) in
  socket_emit socket (SYNC_PINS rows).

Definition on_DRAW_ACTION (roomId : room_id) (userId type : string)
    (payload : jsval) : M unit :=
  let id := "evt_" +:+ pretty (now e) +:+ "_" +:+ rand e in
  execute (write_ok e) sql_insert_canvas_event 5
    (insert_canvas_event id roomId userId type payload (db_now e)) >>
  io_to_emit roomId (SYNC_ACTION id userId type payload).

Definition on_UNDO_REQUEST (roomId : room_id) : M unit :=
  let* lastEvent :=
    get (read_ok e) sql_select_last_event 1 (select_last_event roomId (tie e)) in
  match lastEvent with
  | Some (id, _) =>
      execute (write_ok e) sql_mark_undone 1 (mark_undone id) >>
      io_to_emit roomId (UNDO_EXECUTE id)
  | None => ret ()
  end.

Definition on_SUMMON_USER (roomId : room_id) (fromId targetUserId : string)
    (coords : jsval) : M unit :=
  let expiresAt := now e + 30000 in
  io_to_emit roomId (SUMMON_ALERT fromId targetUserId coords expiresAt).

Definition on_DRAG_PIN (roomId : room_id) (pinId userId : string) : M unit :=
  socket_to_emit socket roomId (PIN_DRAG_START pinId userId).

Definition on_BATTLE_START_TRIGGER (roomId : room_id) (pinId userA userB : string)
    : M unit :=
  io_to_emit roomId (BATTLE_START pinId userA userB).

Definition on_RPS_CHOICE (roomId : room_id) (battleId userId choice : string)
    : M unit :=
  io_to_emit roomId (RPS_CHOICE_RECEIVED battleId userId choice).

Definition on_BATTLE_RESULT (roomId : room_id) (winnerId pinId : string) : M unit :=
  io_to_emit roomId (BATTLE_RESULT_SYNC winnerId pinId).

Definition on_DROP_PIN (roomId : room_id) (pinId : string) (targetDay : Z)
    (userId : string) : M unit :=
  io_to_emit roomId
    (START_VOTE ("vote_" +:+ pretty (now e)) pinId targetDay userId
       (later e + 15000)).

Definition on_SUBMIT_VOTE (roomId : room_id) (voteId userId : string)
    (isAgree : jsval) : M unit :=
  io_to_emit roomId (VOTE_RECEIVED voteId userId isAgree).

Definition on_VOTE_FINAL_RESULT (roomId : room_id) (success : jsval)
    (pinId : string) (targetDay : Z) : M unit :=
  (if truthy success then
     execute (write_ok e) sql_update_assigned_day 2
       (update_assigned_day targetDay pinId)
   else ret ()) >>
  io_to_emit roomId (VOTE_RESULT_SYNC success pinId targetDay).

Definition on_SET_PIN_TIME (roomId : room_id) (pinId timeSlot : string) (day : Z)
    : M unit :=
  execute (write_ok e) sql_update_pin_time 3 (update_pin_time timeSlot day pinId) >>
  io_to_emit roomId (PIN_TIME_UPDATED pinId timeSlot day).

Definition on_SEND_MESSAGE (roomId : room_id) (userId text : string) : M unit :=
  let id := "msg_" +:+ pretty (now e) in
  execute (write_ok e) sql_insert_message 5
    (insert_message id roomId userId "text" text (db_now e)) >>
  io_to_emit roomId (SYNC_MESSAGE id userId text (later e)).

Definition on_SET_AI_STATE (roomId : room_id) (isThinking : jsval) : M unit :=
  execute (write_ok e) sql_update_ai_thinking 2
    (update_ai_thinking (if truthy isThinking then 1 else 0) roomId) >>
  io_to_emit roomId (AI_STATE isThinking).

Definition handler (m : in_event) : M unit :=
  match m with
  | join_room r => on_join_room r
  | UPDATE_PROFILE r u n a => on_UPDATE_PROFILE r u n a
  | MOVE_CURSOR r u c => on_MOVE_CURSOR r u c
  | CREATE_TRIP r t => on_CREATE_TRIP r t
  | GET_PINS t => on_GET_PINS t
  | DRAW_ACTION r u t p => on_DRAW_ACTION r u t p
  | UNDO_REQUEST r => on_UNDO_REQUEST r
  | SUMMON_USER r f t c => on_SUMMON_USER r f t c
  | DRAG_PIN r p u => on_DRAG_PIN r p u
  | BATTLE_START_TRIGGER r p a b => on_BATTLE_START_TRIGGER r p a b
  | RPS_CHOICE r b u c => on_RPS_CHOICE r b u c
  | BATTLE_RESULT r w p => on_BATTLE_RESULT r w p
  | DROP_PIN r p d u => on_DROP_PIN r p d u
  | SUBMIT_VOTE r v u a => on_SUBMIT_VOTE r v u a
  | VOTE_FINAL_RESULT r s p d => on_VOTE_FINAL_RESULT r s p d
  | SET_PIN_TIME r p t d => on_SET_PIN_TIME r p t d
  | SEND_MESSAGE r u c => on_SEND_MESSAGE r u c
  | SET_AI_STATE r t => on_SET_AI_STATE r t
  end.
End handlers.

(** ** Running the server *)

(** One inbound event handled on server [σ]: whether the handler ran to
    its end, the server afterwards, and the events emitted, in order. *)
Record step := {
  completed : bool;
  after : server;
  sent : list delivery }.

Definition handle (socket : socket_id) (e : env) (m : in_event) (σ : server) : step :=
  match handler socket e m {| srv := σ; outbox := [] |} with
  | (Fulfilled _, w) => {| completed := true; after := srv w; sent := outbox w |}
  | (Rejected, w) => {| completed := false; after := srv w; sent := outbox w |}
  end.

(** A sequence of inbound events, each with its socket and environment,
    handled one after the other. *)
Definition input : Type := socket_id * env * in_event.

Fixpoint run (ins : list input) (σ : server) : server * list delivery :=
  match ins with
  | [] => (σ, [])
  | (s, e, m) :: rest =>
      let st := handle s e m σ in
      let '(σ', out) := run rest (after st) in
      (σ', (sent st ++ out)%list)
  end.

(** ** Vocabulary of the statements below *)

(** The store performs a statement sent through [query], [get] or
    [execute] when handler environment [up] reaches it. *)
Definition store_runs (σ : server) (up : bool) (sql : string) (params : nat) : Prop :=
  helper_runs (pgPool σ) up sql params = true.

(** An event of room [r] that has not been undone. *)
Definition is_live (r : room_id) (ev : canvas_event_row) : Prop :=
  ev_room_id ev = r ∧ is_undone ev = 0.

(** Event [id] is a live event of room [r] and no live event of the room
    has a later [created_at]. *)
Definition most_recent_live (evs : gmap string canvas_event_row) (r : room_id)
    (id : string) (ev : canvas_event_row) : Prop :=
  evs !! id = Some ev ∧ is_live r ev ∧
  ∀ id' ev', evs !! id' = Some ev' → is_live r ev' → created_at ev' ≤ created_at ev.



Definition with_canvas_events (c : gmap string canvas_event_row) (d : database)
    : database :=
  {| trips := trips d; rooms := rooms d; users := users d; pins := pins d;
     canvas_events := c; messages := messages d |}.

(** The server after event [id] has been marked. *)
Definition marked (id : string) (ev : canvas_event_row) (σ : server) : server :=
  with_db (with_canvas_events (<[id := set_undone ev]> (canvas_events (db σ))) (db σ)) σ.

(** A room with two strokes drawn in the same second, used to run the
    statements above on data. *)
Definition stroke (r : room_id) (u : string) (t : Z) (undone : Z) : canvas_event_row :=
  {| ev_room_id := r; ev_user_id := u; ev_type := "line"; ev_payload := JNull;
     created_at := t; is_undone := undone |}.

Definition two_strokes : server :=
  {| pgPool := SQLite;
     db := with_canvas_events
             (<["evt_1_a" := stroke "chaos-room-1" "user_a" 1700000000 0]>
                (<["evt_2_b" := stroke "chaos-room-1" "user_b" 1700000000 0]> ∅))
             empty_database;
     members := {["chaos-room-1" := {["s1"; "s2"]}]} |}.

Definition calm : env :=
  {| now := 1700000000000; later := 1700000000001; rand := "k3j9x0q2m";
     db_now := 1700000000; read_ok := true; write_ok := true; tie := 0 |}.

(** ** The browser side that produces the arbitration traffic *)

Module Client.
(** [handleRPS] of the application: the choice goes out at once and, two
    seconds later, a BATTLE_RESULT naming the sender itself as winner.
    [emit] of [useSocket] adds the room id to the payload.  The pair is
    (sent at once, sent later). *)
Definition handleRPS (roomId : room_id) (userId pinId choice : string)
    : in_event * in_event :=
  (RPS_CHOICE roomId "b1" userId choice, BATTLE_RESULT roomId userId pinId).

(** [handleVote]: the ballot goes out at once and, three seconds later, a
    VOTE_FINAL_RESULT with [success: true]. *)
Definition handleVote (roomId : room_id) (userId voteId pinId : string)
    (targetDay : Z) (isAgree : bool) : in_event * in_event :=
  (SUBMIT_VOTE roomId voteId userId (JBool isAgree),
   VOTE_FINAL_RESULT roomId (JBool true) pinId targetDay).
End Client.

(** ** The arbitration rules in the words of the specification *)

Module Duel.
Inductive Choice := ROCK | PAPER | SCISSORS.

(** ROCK beats SCISSORS, SCISSORS beats PAPER, PAPER beats ROCK. *)
Definition beats (a b : Choice) : bool :=
  match a, b with
  | ROCK, SCISSORS | SCISSORS, PAPER | PAPER, ROCK => true
  | _, _ => false
  end.

Definition name (c : Choice) : string :=
  match c with
  | ROCK => "ROCK"
  | PAPER => "PAPER"
  | SCISSORS => "SCISSORS"
  end.

(** The winner of a duel between [A] and [B]; none on equal choices. *)
Definition winner (A B : string) (ca cb : Choice) : option string :=
  if beats ca cb then Some A else if beats cb ca then Some B else None.
End Duel.

Module Vote.
(** Majority of the ballots cast; a tie counts as disagree. *)
Definition success (ballots : list (string * bool)) : bool :=
  (length (filter (λ b, b.2 = false) ballots)
   <? length (filter (λ b, b.2 = true) ballots))%nat.
End Vote.

(** The events a list of deliveries carries, whoever receives them. *)
Definition events (out : list delivery) : list out_event := snd <$> out.

(** An event that opens a duel or a vote over [pinId]. *)
Definition opens_arbitration (pinId : string) (ev : out_event) : bool :=
  match ev with
  | BATTLE_START p _ _ => bool_decide (p = pinId)
  | START_VOTE _ p _ _ _ => bool_decide (p = pinId)
  | _ => false
  end.

(** Both participants of a duel over [pinId] send their choice through
    [handleRPS]. *)
Definition duel_choices (r : room_id) (e : env) (sA sB : socket_id)
    (pinId A B : string) (ca cb : Duel.Choice) : list input :=
  [(sA, e, (Client.handleRPS r A pinId (Duel.name ca)).1);
   (sB, e, (Client.handleRPS r B pinId (Duel.name cb)).1)].

(** The BATTLE_RESULT messages their browsers send two seconds later. *)
Definition duel_results (r : room_id) (e : env) (sA sB : socket_id)
    (pinId A B : string) (ca cb : Duel.Choice) : list input :=
  [(sA, e, (Client.handleRPS r A pinId (Duel.name ca)).2);
   (sB, e, (Client.handleRPS r B pinId (Duel.name cb)).2)].

(** The claim of the specification on duels, at one duel: once [A] and
    [B] have each sent one choice, the coordinator has announced the
    winner of the rock-paper-scissors relation, or, on equal choices,
    has opened the duel again. *)
Definition coordinator_decides_duel (σ : server) (r : room_id) (e : env)
    (sA sB : socket_id) (pinId A B : string) (ca cb : Duel.Choice) : Prop :=
  let out := (run (duel_choices r e sA sB pinId A B ca cb) σ).2 in
  match Duel.winner A B ca cb with
  | Some w => BATTLE_RESULT_SYNC w pinId ∈ events out
  | None => BATTLE_START pinId A B ∈ events out
  end.

(** The claim on a second arbitration for a pin: handling [second] right
    after [first] opens nothing for [pinId]. *)
Definition second_arbitration_rejected (σ : server) (first second : input)
    (pinId : string) : Prop :=
  let σ1 := after (handle first.1.1 first.1.2 first.2 σ) in
  Forall (λ ev, opens_arbitration pinId ev = false)
    (events (sent (handle second.1.1 second.1.2 second.2 σ1))).

(** A ballot as it reaches the server: the socket, what that handler run
    reads from outside, and the SUBMIT_VOTE payload. *)
Record ballot := {
  b_socket : socket_id;
  b_env : env;
  b_room : room_id;
  b_vote : string;
  b_user : string;
  b_agree : jsval }.

Definition submit (b : ballot) : input :=
  (b_socket b, b_env b, SUBMIT_VOTE (b_room b) (b_vote b) (b_user b) (b_agree b)).

(** What the room receives for a ballot. *)
Definition relayed (σ : server) (b : ballot) : delivery :=
  (in_room σ (b_room b), VOTE_RECEIVED (b_vote b) (b_user b) (b_agree b)).

(** The ballots of one participant in one vote that a list of deliveries
    carries. *)
Definition ballots_of (voteId userId : string) (out : list delivery) : list jsval :=
  omap (λ ev, match ev with
              | VOTE_RECEIVED v u a =>
                  if decide (v = voteId ∧ u = userId) then Some a else None
              | _ => None
              end) (events out).

(** The claims on votes.  First: the outcome is a function of the ballots,
    so that two finalizations of a vote that follow the same ballots
    leave the pin with the same day. *)
Definition outcome_from_ballots_only (σ : server) (ballots : list ballot)
    (fin1 fin2 : input) (pinId : string) : Prop :=
  assigned_day <$> pins (db (run ((submit <$> ballots) ++ [fin1]) σ).1) !! pinId
  = assigned_day <$> pins (db (run ((submit <$> ballots) ++ [fin2]) σ).1) !! pinId.

(** Second: of the ballots a participant sends, at most one stands. *)
Definition at_most_one_ballot_stands (σ : server) (ballots : list ballot)
    (voteId userId : string) : Prop :=
  (length (ballots_of voteId userId (run (submit <$> ballots) σ).2) ≤ 1)%nat.

(** The voters of a vote run [handleVote]: first their ballots arrive,
    then the VOTE_FINAL_RESULT of each browser. *)
Definition browsers_vote (r : room_id) (e : env) (voteId pinId : string)
    (targetDay : Z) (ballots : list (string * bool)) : list input :=
  ((λ b : string * bool,
      (b.1, e, (Client.handleVote r b.1 voteId pinId targetDay b.2).1)) <$> ballots)
  ++ ((λ b : string * bool,
         (b.1, e, (Client.handleVote r b.1 voteId pinId targetDay b.2).2)) <$> ballots).

(** Third: the day of the pin follows the majority of the ballots cast:
    set to [targetDay] when they succeed, all pins as before when not. *)
Definition vote_follows_majority (σ : server) (r : room_id) (e : env)
    (voteId pinId : string) (targetDay : Z) (ballots : list (string * bool)) : Prop :=
  let σ' := (run (browsers_vote r e voteId pinId targetDay ballots) σ).1 in
  if Vote.success ballots
  then assigned_day <$> pins (db σ') !! pinId = Some targetDay
  else pins (db σ') = pins (db σ).

(** The ballot of participant [u] in the vote "vote_1", sent from the
    socket of the same name. *)
Definition cast (u : string) (a : bool) : ballot :=
  {| b_socket := u; b_env := calm;
     b_room := "chaos-room-1"; b_vote := "vote_1"; b_user := u;
     b_agree := JBool a |}.

(** The canvas and schedule mutations. *)
Definition is_mutation (m : in_event) : bool :=
  match m with
  | DRAW_ACTION _ _ _ _ | UNDO_REQUEST _ | SET_PIN_TIME _ _ _ _
  | VOTE_FINAL_RESULT _ _ _ _ => true
  | _ => false
  end.

(** Socket [s] is among the receivers of some delivery. *)
Definition reaches (s : socket_id) (out : list delivery) : Prop :=
  Exists (λ d, s ∈ d.1) out.

(** A server that holds one unscheduled pin, next to the two strokes. *)
Definition unscheduled (name : string) : pin_row :=
  {| pin_trip_id := Some "trip_1"; pin_room_id := Some "chaos-room-1";
     place_id := None; pin_name := Some name; lat := JNum 34; lng := JNum 135;
     assigned_day := 0; time_slot := None; order_idx := 0;
     locked_by := None; locked_until := None |}.

Definition with_pin_3 : server :=
  with_db (with_pins {["pin-3" := unscheduled "Osaka Castle"]} (db two_strokes))
    two_strokes.

(** A profile row with every column filled in. *)
Definition veteran : user_row :=
  {| nickname := Some "old"; avatar_url := Some "https://a/old.png";
     status_emoji := Some "zzz"; rps_wins := 3; undo_used := 1 |}.

Definition with_users (u : gmap string user_row) (d : database) : database :=
  {| trips := trips d; rooms := rooms d; users := u; pins := pins d;
     canvas_events := canvas_events d; messages := messages d |}.

Definition with_veteran : server :=
  with_db (with_users {["user_a" := veteran; "user_b" := veteran]} (db two_strokes))
    two_strokes.

(** The store cannot be reached during this handler run. *)
Definition store_down : env :=
  {| now := 1700000000000; later := 1700000000001; rand := "k3j9x0q2m";
     db_now := 1700000000; read_ok := false; write_ok := false; tie := 0 |}.

(** The statements sent through [query], [get] and [execute], with the
    number of values bound. *)
Definition helper_statements : list (string * nat) :=
  [(sql_select_trips, 1%nat); (sql_insert_trip, 3%nat); (sql_select_pins, 1%nat);
   (sql_insert_canvas_event, 5%nat); (sql_select_last_event, 1%nat);
   (sql_mark_undone, 1%nat); (sql_update_assigned_day, 2%nat);
   (sql_update_pin_time, 3%nat); (sql_insert_message, 5%nat);
   (sql_update_ai_thinking, 2%nat)].

(** ** Vocabulary for the handlers taken together *)

(** The room an inbound event names; GET_PINS names none. *)
Definition room_of (m : in_event) : option room_id :=
  match m with
  | join_room r | UPDATE_PROFILE r _ _ _ | MOVE_CURSOR r _ _ | CREATE_TRIP r _
  | DRAW_ACTION r _ _ _ | UNDO_REQUEST r | SUMMON_USER r _ _ _ | DRAG_PIN r _ _
  | BATTLE_START_TRIGGER r _ _ _ | RPS_CHOICE r _ _ _ | BATTLE_RESULT r _ _
  | DROP_PIN r _ _ _ | SUBMIT_VOTE r _ _ _ | VOTE_FINAL_RESULT r _ _ _
  | SET_PIN_TIME r _ _ _ | SEND_MESSAGE r _ _ | SET_AI_STATE r _ => Some r
  | GET_PINS _ => None
  end.

(** The handlers that make no store call. *)
Definition is_relay (m : in_event) : bool :=
  match m with
  | MOVE_CURSOR _ _ _ | SUMMON_USER _ _ _ _ | DRAG_PIN _ _ _
  | BATTLE_START_TRIGGER _ _ _ _ | RPS_CHOICE _ _ _ _ | BATTLE_RESULT _ _ _
  | DROP_PIN _ _ _ _ | SUBMIT_VOTE _ _ _ _ => true
  | _ => false
  end.

(** The handlers whose every run calls [query], [get] or [execute]. *)
Definition calls_helper (m : in_event) : bool :=
  match m with
  | join_room _ | CREATE_TRIP _ _ | GET_PINS _ | DRAW_ACTION _ _ _ _
  | UNDO_REQUEST _ | SET_PIN_TIME _ _ _ _ | SEND_MESSAGE _ _ _
  | SET_AI_STATE _ _ => true
  | VOTE_FINAL_RESULT _ success _ _ => truthy success
  | _ => false
  end.

(** An event row has only moved from live to undone, if at all. *)
Definition undone_or_same (ev ev' : canvas_event_row) : Prop :=
  ev' = ev ∨ ev' = set_undone ev.

(** The undo requests of a list of sockets and environments for one room. *)
Definition undo_requests (r : room_id) (who : list (socket_id * env)) : list input :=
  (λ se : socket_id * env, (se.1, se.2, UNDO_REQUEST r)) <$> who.

(** The ids that the UNDO_EXECUTE events of a list of deliveries carry. *)
Definition undone_ids (out : list delivery) : list string :=
  omap (λ ev, match ev with UNDO_EXECUTE id => Some id | _ => None end) (events out).

(** The ids the handlers make up, and the row a DRAW_ACTION stores. *)
Definition new_trip_id (e : env) : string := "trip_" +:+ pretty (now e).

Definition new_event_id (e : env) : string :=
  "evt_" +:+ pretty (now e) +:+ "_" +:+ rand e.

Definition new_message_id (e : env) : string := "msg_" +:+ pretty (now e).

Definition drawn (e : env) (r : room_id) (userId type : string) (payload : jsval)
    : canvas_event_row :=
  {| ev_room_id := r; ev_user_id := userId; ev_type := type; ev_payload := payload;
     created_at := db_now e; is_undone := 0 |}.

(** Five seconds after [calm]. *)
Definition later_second : env :=
  {| now := 1700000005000; later := 1700000005001; rand := "p0o9i8u7y";
     db_now := 1700000005; read_ok := true; write_ok := true; tie := 1 |}.

(** [n] question marks in front of [tail]. *)
Definition question_prefix (n : nat) (tail : string) : string :=
  Nat.iter n (String "?"%char) tail.

(** ** The application's side: canvas, pins and presence *)

Module App.
(** [interface DrawingAction] *)
Record DrawingAction := {
  actionId : string;
  userId : string;
  type : string;
  payload : jsval }.

(** [on('SYNC_ACTION', ...)]: [setRemoteActions(prev => [...prev, action])] *)
Definition on_SYNC_ACTION (action : DrawingAction) (prev : list DrawingAction)
    : list DrawingAction :=
  prev ++ [action].

(** [on('UNDO_EXECUTE', ...)]: [prev.filter(a => a.actionId !== actionId)] *)
Definition on_UNDO_EXECUTE (id : string) (prev : list DrawingAction)
    : list DrawingAction :=
  filter (λ a, actionId a ≠ id) prev.

(** What the canvas of [DrawingCanvas] does with one event it receives;
    it listens to no other event. *)
Definition canvas_receives (ev : out_event) (prev : list DrawingAction)
    : list DrawingAction :=
  match ev with
  | SYNC_ACTION id u t p =>
      on_SYNC_ACTION {| actionId := id; userId := u; type := t; payload := p |} prev
  | UNDO_EXECUTE id => on_UNDO_EXECUTE id prev
  | _ => prev
  end.

(** [interface PinData].  The objects held in [pins] are the rows that
    SYNC_PINS delivers; the interface names six of their columns.  [name]
    may be NULL in the table; [lat] and [lng] are carried as they arrive. *)
Record PinData := {
  pd_id : string;
  pd_name : option string;
  pd_lat : jsval;
  pd_lng : jsval;
  pd_assigned_day : Z;
  pd_time_slot : option string }.

(** A row of [pins], as the application reads it. *)
Definition of_row (kv : string * pin_row) : PinData :=
  {| pd_id := kv.1; pd_name := pin_name kv.2; pd_lat := lat kv.2; pd_lng := lng kv.2;
     pd_assigned_day := assigned_day kv.2; pd_time_slot := time_slot kv.2 |}.

(** [on('SYNC_PINS', (data) => setPins(data))] *)
Definition on_SYNC_PINS (data : list (string * pin_row)) (prev : list PinData)
    : list PinData :=
  of_row <$> data.

(** [on('VOTE_RESULT_SYNC', ...)]:
    [if (success) setPins(prev => prev.map(p => p.id === pinId ?
       { ...p, assigned_day: targetDay } : p))] *)
Definition on_VOTE_RESULT_SYNC (success : jsval) (pinId : string) (targetDay : Z)
    (prev : list PinData) : list PinData :=
  if truthy success then
    (λ p, if decide (pd_id p = pinId)
          then {| pd_id := pd_id p; pd_name := pd_name p; pd_lat := pd_lat p;
                  pd_lng := pd_lng p; pd_assigned_day := targetDay;
                  pd_time_slot := pd_time_slot p |}
          else p) <$> prev
  else prev.

(** What the pin list of [App] does with one event it receives: these
    two listeners are the only callers of [setPins]. *)
Definition pins_receive (ev : out_event) (prev : list PinData) : list PinData :=
  match ev with
  | SYNC_PINS data => on_SYNC_PINS data prev
  | VOTE_RESULT_SYNC success pinId targetDay =>
      on_VOTE_RESULT_SYNC success pinId targetDay prev
  | _ => prev
  end.




End App.

(** ** Connections *)

(** [io.on("connection", ...)]: the callback logs and registers the
    handlers; socket.io itself has put the new socket into the room named
    by its own id. *)
Definition open_connection (s : socket_id) (σ : server) : server :=
  with_members (<[s := {[s]} ∪ in_room σ s]> (members σ)) σ.

(** The server registers no listener for a closing connection; socket.io
    itself takes the socket out of every room. *)
Definition close_connection (s : socket_id) (σ : server) : server :=
  with_members ((λ sockets, sockets ∖ {[s]}) <$> members σ) σ.

(** What happens at the server: a connection opens, a request arrives on
    a socket, or a connection closes. *)
Inductive occurrence :=
  | Connects (s : socket_id)
  | Request (s : socket_id) (e : env) (m : in_event)
  | Closes (s : socket_id).

Definition occur (o : occurrence) (σ : server) : server * list delivery :=
  match o with
  | Connects s => (open_connection s σ, [])
  | Request s e m => (after (handle s e m σ), sent (handle s e m σ))
  | Closes s => (close_connection s σ, [])
  end.

Fixpoint serve (occ : list occurrence) (σ : server) : server * list delivery :=
  match occ with
  | [] => (σ, [])
  | o :: rest =>
      let '(σ', out) := serve rest (occur o σ).1 in
      (σ', ((occur o σ).2 ++ out)%list)
  end.

(** The connection of socket [c] does not close at [o]. *)
Definition stays_open (c : socket_id) (o : occurrence) : Prop :=
  match o with
  | Closes s => s ≠ c
  | _ => True
  end.

(** A server just started, with nothing stored. *)
Definition started : server :=
  {| pgPool := SQLite; db := empty_database; members := ∅ |}.

(** Two browsers have connected and joined the room of the application. *)
Definition two_browsers : list occurrence :=
  [Connects "s1"; Request "s1" calm (join_room "chaos-room-1");
   Connects "s2"; Request "s2" calm (join_room "chaos-room-1")].

Definition lobby : server :=
  {| pgPool := SQLite; db := empty_database;
     members := {["s1" := {["s1"]}; "s2" := {["s2"]};
                  "chaos-room-1" := {["s1"; "s2"]}]} |}.

(** [lobby] with the two strokes of [two_strokes] already stored. *)
Definition lobby_with_strokes : server := with_db (db two_strokes) lobby.

(** [lobby] with one pin stored. *)
Definition lobby_with_pin_3 : server :=
  with_db (with_pins {["pin-3" := unscheduled "Osaka Castle"]} (db lobby)) lobby.

(** ** The application against the server *)

(** The state a listener of socket [c] reaches by applying, in order,
    the events of the deliveries that reach [c]. *)
Definition received {S} (apply : out_event → S → S) (c : socket_id)
    (out : list delivery) (start : S) : S :=
  foldl (λ st (d : delivery), if decide (c ∈ d.1) then apply d.2 st else st) start out.




(** The pin list of a browser has, for each pin it shows, the day the
    store has for it. *)
Definition pins_agree (view : list App.PinData) (tbl : gmap string pin_row) : Prop :=
  ∀ p, p ∈ view →
       ∃ row, tbl !! App.pd_id p = Some row ∧ assigned_day row = App.pd_assigned_day p.


Definition with_trips (t : gmap string trip_row) (d : database) : database :=
  {| trips := t; rooms := rooms d; users := users d; pins := pins d;
     canvas_events := canvas_events d; messages := messages d |}.

(** The row a CREATE_TRIP stores. *)
Definition created (e : env) (r : room_id) (title : string) : trip_row :=
  {| trip_room_id := r; trip_title := title; trip_created_at := db_now e |}.

(** What the pin list of a browser shows for pin-3 of [with_pin_3]. *)
Definition pin_3_shown : App.PinData :=
  {| App.pd_id := "pin-3"; App.pd_name := Some "Osaka Castle"; App.pd_lat := JNum 34;
     App.pd_lng := JNum 135; App.pd_assigned_day := 0; App.pd_time_slot := None |}.

(** * Properties *)

(** A decidable statement about concrete data is refuted by evaluating
    its decision procedure. *)
Ltac refute_by_evaluation :=
  cbv zeta; apply (bool_decide_eq_false_1 _); vm_compute; reflexivity.

(** ** The monad runs as expected *)

Lemma query_runs {A} σ out up sql params (select : database → A) :
  store_runs σ up sql params →
  query up sql params select {| srv := σ; outbox := out |}
  = (Fulfilled (select (db σ)), {| srv := σ; outbox := out |}).
Proof. unfold store_runs, query, bind, get_server; simpl. by intros ->. Qed.

Lemma query_refused {A} σ out up sql params (select : database → A) :
  helper_runs (pgPool σ) up sql params = false →
  query up sql params select {| srv := σ; outbox := out |}
  = (Rejected, {| srv := σ; outbox := out |}).
Proof. unfold query, bind, get_server; simpl. by intros ->. Qed.

Lemma execute_runs σ out up sql params effect d :
  store_runs σ up sql params →
  effect (db σ) = Some d →
  execute up sql params effect {| srv := σ; outbox := out |}
  = (Fulfilled (), {| srv := with_db d σ; outbox := out |}).
Proof. unfold store_runs, execute, bind, get_server; simpl. by intros -> ->. Qed.

Lemma execute_refused σ out up sql params effect :
  helper_runs (pgPool σ) up sql params = false →
  execute up sql params effect {| srv := σ; outbox := out |}
  = (Rejected, {| srv := σ; outbox := out |}).
Proof. unfold execute, bind, get_server; simpl. by intros ->. Qed.

Lemma execute_violates σ out up sql params effect :
  effect (db σ) = None →
  execute up sql params effect {| srv := σ; outbox := out |}
  = (Rejected, {| srv := σ; outbox := out |}).
Proof.
  unfold execute, bind, get_server; simpl. intros ->.
  by destruct (helper_runs _ _ _ _).
Qed.

(** ** Selecting the last event *)

Section last_event.
Implicit Types (evs : gmap string canvas_event_row) (r : room_id).
Implicit Types (l : list (string * canvas_event_row)).

Lemma elem_of_live_events r evs id ev :
  (id, ev) ∈ live_events r evs ↔ evs !! id = Some ev ∧ is_live r ev.
Proof.
  unfold live_events. rewrite list_elem_of_filter, elem_of_map_to_list.
  simpl. unfold is_live. tauto.
Qed.

Lemma elem_of_newest l kv :
  kv ∈ newest l ↔ kv ∈ l ∧ ∀ kv', kv' ∈ l → created_at kv'.2 ≤ created_at kv.2.
Proof.
  unfold newest. rewrite list_elem_of_filter, Forall_forall. tauto.
Qed.

(** A non-empty list of events has a newest one. *)
Lemma has_newest l :
  l ≠ [] → ∃ kv, kv ∈ l ∧ ∀ kv', kv' ∈ l → created_at kv'.2 ≤ created_at kv.2.
Proof.
  induction l as [|a l IH]; [done|]. intros _.
  destruct l as [|b l].
  - exists a. split; [left|]. intros kv' ->%list_elem_of_singleton. lia.
  - destruct IH as (m & Hm & Hmax); [done|].
    destruct (decide (created_at m.2 ≤ created_at a.2)) as [Hle|Hgt].
    + exists a. split; [left|]. intros kv' [->|Hin]%elem_of_cons; [lia|].
      specialize (Hmax _ Hin). lia.
    + exists m. split; [by right|]. intros kv' [->|Hin]%elem_of_cons; [lia|].
      by apply Hmax.
Qed.

Lemma newest_nil l : newest l = [] → l = [].
Proof.
  intros Hnil. destruct (decide (l = [])) as [|Hne]; [done|].
  destruct (has_newest l Hne) as (kv & Hin & Hmax).
  assert (kv ∈ newest l) as Hk by by apply elem_of_newest.
  rewrite Hnil in Hk. by apply not_elem_of_nil in Hk.
Qed.

Lemma select_last_event_None r tie d :
  select_last_event r tie d = None ↔ live_events r (canvas_events d) = [].
Proof.
  unfold select_last_event. split.
  - intros Hnone. apply newest_nil.
    destruct (newest _) as [|a top] eqn:Htop; [done|].
    apply lookup_ge_None in Hnone.
    pose proof (Nat.mod_upper_bound tie (length (a :: top))) as Hlt.
    simpl in *. lia.
  - intros ->. done.
Qed.

Lemma select_last_event_Some r tie d id ev :
  select_last_event r tie d = Some (id, ev) →
  most_recent_live (canvas_events d) r id ev.
Proof.
  unfold select_last_event. intros Hsel%list_elem_of_lookup_2.
  apply elem_of_newest in Hsel as [Hin Hmax].
  apply elem_of_live_events in Hin as [Hlook Hlive].
  split; [done|]. split; [done|]. intros id' ev' Hlook' Hlive'.
  apply (Hmax (id', ev')). by apply elem_of_live_events.
Qed.


(** [UPDATE ... SET is_undone = 1 WHERE id = ?] on an existing row. *)
Lemma alter_set_undone evs id ev :
  evs !! id = Some ev → alter set_undone id evs = <[id := set_undone ev]> evs.
Proof.
  intros Hlook. apply map_eq. intros j. rewrite lookup_alter, lookup_insert.
  destruct (decide (id = j)) as [->|]; [by rewrite Hlook|done].
Qed.

(** Marking a live event leaves one live event fewer. *)
Lemma live_events_marked r evs id ev :
  evs !! id = Some ev → is_live r ev →
  S (length (live_events r (<[id := set_undone ev]> evs)))
  = length (live_events r evs).
Proof.
  intros Hlook Hlive. unfold live_events.
  rewrite <-(map_to_list_delete evs id ev Hlook).
  rewrite <-(insert_delete_eq evs id (set_undone ev)).
  rewrite map_to_list_insert by apply lookup_delete_eq.
  rewrite filter_cons_False, filter_cons_True; [done|done|].
  simpl. intros [_ Hun]. done.
Qed.

End last_event.

(** ** UNDO_REQUEST *)

(** What the handler does once the store runs its two statements. *)
Lemma handle_UNDO_REQUEST s e σ r :
  store_runs σ (read_ok e) sql_select_last_event 1 →
  store_runs σ (write_ok e) sql_mark_undone 1 →
  handle s e (UNDO_REQUEST r) σ =
  match select_last_event r (tie e) (db σ) with
  | Some (id, _) =>
      {| completed := true;
         after := with_db (with_canvas_events
                             (alter set_undone id (canvas_events (db σ))) (db σ)) σ;
         sent := [(in_room σ r, UNDO_EXECUTE id)] |}
  | None => {| completed := true; after := σ; sent := [] |}
  end.
Proof.
  intros Hget Hexec. unfold handle, handler, on_UNDO_REQUEST, get.
  unfold bind at 1. rewrite (query_runs _ _ _ _ _ _ Hget).
  destruct (select_last_event r (tie e) (db σ)) as [[id ev]|]; [|done].
  unfold bind at 1.
  by rewrite (execute_runs σ [] _ _ _ (mark_undone id) _ Hexec eq_refl).
Qed.


(** A successful undo, as one step. *)
Lemma undo_step s e σ r :
  store_runs σ (read_ok e) sql_select_last_event 1 →
  store_runs σ (write_ok e) sql_mark_undone 1 →
  live_events r (canvas_events (db σ)) ≠ [] →
  ∃ id ev,
    most_recent_live (canvas_events (db σ)) r id ev ∧
    handle s e (UNDO_REQUEST r) σ =
      {| completed := true; after := marked id ev σ;
         sent := [(in_room σ r, UNDO_EXECUTE id)] |}.
Proof.
  intros Hget Hexec Hne. rewrite handle_UNDO_REQUEST by done.
  destruct (select_last_event r (tie e) (db σ)) as [[id ev]|] eqn:Hsel.
  - exists id, ev. pose proof (select_last_event_Some _ _ _ _ _ Hsel) as Hrecent.
    split; [done|]. unfold marked.
    by rewrite (alter_set_undone _ _ ev) by apply Hrecent.
  - by apply select_last_event_None in Hsel.
Qed.

(** An undo on a room without live events. *)
Lemma undo_noop s e σ r :
  store_runs σ (read_ok e) sql_select_last_event 1 →
  store_runs σ (write_ok e) sql_mark_undone 1 →
  live_events r (canvas_events (db σ)) = [] →
  handle s e (UNDO_REQUEST r) σ = {| completed := true; after := σ; sent := [] |}.
Proof.
  intros Hget Hexec Hnil. rewrite handle_UNDO_REQUEST by done.
  by apply (select_last_event_None r (tie e)) in Hnil as ->.
Qed.




(** ** Relayed events: duel and vote traffic *)

Lemma handle_RPS_CHOICE s e σ r battleId userId choice :
  handle s e (RPS_CHOICE r battleId userId choice) σ
  = {| completed := true; after := σ;
       sent := [(in_room σ r, RPS_CHOICE_RECEIVED battleId userId choice)] |}.
Proof.
  unfold handle, handler, on_RPS_CHOICE, io_to_emit, bind, get_server, emit.
  reflexivity.
Qed.

Lemma handle_SUBMIT_VOTE s e σ r voteId userId isAgree :
  handle s e (SUBMIT_VOTE r voteId userId isAgree) σ
  = {| completed := true; after := σ;
       sent := [(in_room σ r, VOTE_RECEIVED voteId userId isAgree)] |}.
Proof.
  unfold handle, handler, on_SUBMIT_VOTE, io_to_emit, bind, get_server, emit.
  reflexivity.
Qed.

(** C10.  Handling RPS_CHOICE or SUBMIT_VOTE always runs to its end,
    leaves the whole server (every table and the room membership) as it
    was, and emits exactly one event: the message itself, to the room. *)
Theorem choice_and_ballot_only_relayed s e σ r battleId voteId userId choice isAgree :
  handle s e (RPS_CHOICE r battleId userId choice) σ
  = {| completed := true; after := σ;
       sent := [(in_room σ r, RPS_CHOICE_RECEIVED battleId userId choice)] |}
  ∧ handle s e (SUBMIT_VOTE r voteId userId isAgree) σ
  = {| completed := true; after := σ;
       sent := [(in_room σ r, VOTE_RECEIVED voteId userId isAgree)] |}.
Proof.
  split.
  - apply handle_RPS_CHOICE.
  - apply handle_SUBMIT_VOTE.
Qed.

(** BATTLE_RESULT is relayed in the same way. *)
Lemma handle_BATTLE_RESULT s e σ r winnerId pinId :
  handle s e (BATTLE_RESULT r winnerId pinId) σ
  = {| completed := true; after := σ;
       sent := [(in_room σ r, BATTLE_RESULT_SYNC winnerId pinId)] |}.
Proof.
  unfold handle, handler, on_BATTLE_RESULT, io_to_emit, bind, get_server, emit.
  reflexivity.
Qed.

Lemma run_cons s e m rest σ :
  run ((s, e, m) :: rest) σ
  = ((run rest (after (handle s e m σ))).1,
     (sent (handle s e m σ) ++ (run rest (after (handle s e m σ))).2)%list).
Proof. simpl. by destruct (run rest _). Qed.

Lemma run_app a b σ :
  run (a ++ b) σ
  = ((run b (run a σ).1).1, ((run a σ).2 ++ (run b (run a σ).1).2)%list).
Proof.
  revert σ. induction a as [|[[s e] m] a IH]; intros σ.
  - simpl. by destruct (run b σ).
  - rewrite <-app_comm_cons, !run_cons, IH. simpl. by rewrite app_assoc.
Qed.

(** C1, as the code has it.  Whatever two choices the participants send,
    equal or not, the coordinator relays them and emits nothing else;
    the winner the room is told is the [winnerId] of a client's
    BATTLE_RESULT message, passed on as received; no state changes. *)
Theorem duel_winner_is_client_supplied σ r battleId pinId A B cA cB w sA eA sB eB sW eW :
  run [(sA, eA, RPS_CHOICE r battleId A cA); (sB, eB, RPS_CHOICE r battleId B cB);
       (sW, eW, BATTLE_RESULT r w pinId)] σ
  = (σ, [(in_room σ r, RPS_CHOICE_RECEIVED battleId A cA);
         (in_room σ r, RPS_CHOICE_RECEIVED battleId B cB);
         (in_room σ r, BATTLE_RESULT_SYNC w pinId)]).
Proof.
  rewrite run_cons, handle_RPS_CHOICE. cbn [after sent].
  rewrite run_cons, handle_RPS_CHOICE. cbn [after sent].
  rewrite run_cons, handle_BATTLE_RESULT. cbn [after sent].
  reflexivity.
Qed.

(** C1 fails as stated.  With ROCK against SCISSORS the coordinator
    announces no winner after both choices; with the messages the two
    browsers then send, the room is told that each of them won; and on
    ROCK against ROCK no duel is opened again. *)
Lemma coordinator_does_not_decide_duel :
  ¬ coordinator_decides_duel two_strokes "chaos-room-1" calm "s1" "s2"
      "pin-7" "user_a" "user_b" Duel.ROCK Duel.SCISSORS
  ∧ events (run (duel_choices "chaos-room-1" calm "s1" "s2" "pin-7" "user_a" "user_b"
                   Duel.ROCK Duel.SCISSORS
                 ++ duel_results "chaos-room-1" calm "s1" "s2" "pin-7" "user_a"
                      "user_b" Duel.ROCK Duel.SCISSORS)
              two_strokes).2
    = [RPS_CHOICE_RECEIVED "b1" "user_a" "ROCK";
       RPS_CHOICE_RECEIVED "b1" "user_b" "SCISSORS";
       BATTLE_RESULT_SYNC "user_a" "pin-7"; BATTLE_RESULT_SYNC "user_b" "pin-7"]
  ∧ ¬ coordinator_decides_duel two_strokes "chaos-room-1" calm "s1" "s2"
        "pin-7" "user_a" "user_b" Duel.ROCK Duel.ROCK.
Proof.
  split; [|split].
  - unfold coordinator_decides_duel. simpl Duel.winner. refute_by_evaluation.
  - vm_compute. reflexivity.
  - unfold coordinator_decides_duel. simpl Duel.winner. refute_by_evaluation.
Qed.

(** ** Opening an arbitration *)

(** C3, as the code has it.  The coordinator keeps no arbitration: after
    any history, a BATTLE_START_TRIGGER is broadcast to the room as
    BATTLE_START and a DROP_PIN as START_VOTE, whose vote id is "vote_"
    followed by the clock reading and whose expiry is 15000 ms after the
    second clock reading; nothing is rejected and the server is left as
    it was. *)
Theorem arbitration_opened_unconditionally history σ s e r pinId userA userB
    targetDay userId :
  let σ1 := (run history σ).1 in
  handle s e (BATTLE_START_TRIGGER r pinId userA userB) σ1
  = {| completed := true; after := σ1;
       sent := [(in_room σ1 r, BATTLE_START pinId userA userB)] |}
  ∧ handle s e (DROP_PIN r pinId targetDay userId) σ1
  = {| completed := true; after := σ1;
       sent := [(in_room σ1 r,
                 START_VOTE ("vote_" +:+ pretty (now e)) pinId targetDay userId
                   (later e + 15000))] |}.
Proof.
  intros σ1. split.
  - unfold handle, handler, on_BATTLE_START_TRIGGER, io_to_emit, bind, get_server,
      emit. reflexivity.
  - unfold handle, handler, on_DROP_PIN, io_to_emit, bind, get_server, emit.
    reflexivity.
Qed.

(** C3 fails as stated: a second DROP_PIN for a pin whose vote has just
    been opened opens another vote for it, and so does a
    BATTLE_START_TRIGGER for a pin whose duel has just been opened. *)
Lemma second_arbitration_not_rejected :
  ¬ second_arbitration_rejected two_strokes
      ("s1", calm, DROP_PIN "chaos-room-1" "pin-3" 2 "user_a")
      ("s2", calm, DROP_PIN "chaos-room-1" "pin-3" 4 "user_b") "pin-3"
  ∧ ¬ second_arbitration_rejected two_strokes
        ("s1", calm, BATTLE_START_TRIGGER "chaos-room-1" "pin-7" "user_a" "user_b")
        ("s2", calm, BATTLE_START_TRIGGER "chaos-room-1" "pin-7" "user_b" "user_a")
        "pin-7".
Proof.
  split; unfold second_arbitration_rejected; refute_by_evaluation.
Qed.

(** ** Votes *)

Lemma run_ballots bs σ : run (submit <$> bs) σ = (σ, relayed σ <$> bs).
Proof.
  induction bs as [|b bs IH]; [done|].
  rewrite fmap_cons. unfold submit at 1.
  rewrite run_cons, handle_SUBMIT_VOTE. simpl. by rewrite IH.
Qed.

(** What VOTE_FINAL_RESULT does once the store runs its UPDATE. *)
Lemma handle_VOTE_FINAL_RESULT s e σ r success pinId targetDay :
  store_runs σ (write_ok e) sql_update_assigned_day 2 →
  handle s e (VOTE_FINAL_RESULT r success pinId targetDay) σ
  = {| completed := true;
       after := if truthy success
                then with_db (with_pins (alter (set_assigned_day targetDay) pinId
                                           (pins (db σ))) (db σ)) σ
                else σ;
       sent := [(in_room σ r, VOTE_RESULT_SYNC success pinId targetDay)] |}.
Proof.
  intros Hexec. unfold handle, handler, on_VOTE_FINAL_RESULT, bind at 1.
  destruct (truthy success); [|done].
  by rewrite (execute_runs σ [] _ _ _ (update_assigned_day targetDay pinId) _
                Hexec eq_refl).
Qed.


(** VOTE_FINAL_RESULT never changes who is in which room. *)
Lemma vote_result_keeps_members s e σ r success pinId targetDay :
  members (after (handle s e (VOTE_FINAL_RESULT r success pinId targetDay) σ))
  = members σ.
Proof.
  unfold handle, handler, on_VOTE_FINAL_RESULT, execute, bind, get_server.
  simpl. destruct (truthy success); [|done].
  by destruct (helper_runs _ _ _ _).
Qed.

(** C2, as the code has it.  The outcome is the [success] field of the
    VOTE_FINAL_RESULT message, not a count of ballots.  When the store
    runs the UPDATE: if [success] is truthy the row of [pinId], if there
    is one, gets [assigned_day = targetDay] and nothing else changes; if
    it is falsy the server is left as it was.  Either way the result is
    broadcast to the room as received. *)
Theorem vote_result_applies_client_flag s e σ r success pinId targetDay :
  store_runs σ (write_ok e) sql_update_assigned_day 2 →
  let st := handle s e (VOTE_FINAL_RESULT r success pinId targetDay) σ in
  completed st = true
  ∧ after st = (if truthy success
                then with_db (with_pins (alter (set_assigned_day targetDay) pinId
                                           (pins (db σ))) (db σ)) σ
                else σ)
  ∧ pins (db (after st)) !! pinId
    = (if truthy success then set_assigned_day targetDay else id)
        <$> pins (db σ) !! pinId
  ∧ pins (db (after st)) !! pinId
    = (λ p, if truthy success
            then {| pin_trip_id := pin_trip_id p; pin_room_id := pin_room_id p;
                    place_id := place_id p; pin_name := pin_name p; lat := lat p;
                    lng := lng p; assigned_day := targetDay;
                    time_slot := time_slot p; order_idx := order_idx p;
                    locked_by := locked_by p; locked_until := locked_until p |}
            else p)
        <$> pins (db σ) !! pinId
  ∧ assigned_day <$> pins (db (after st)) !! pinId
    = (λ p, if truthy success then targetDay else assigned_day p)
        <$> pins (db σ) !! pinId
  ∧ (∀ other, other ≠ pinId →
              pins (db (after st)) !! other = pins (db σ) !! other)
  ∧ sent st = [(in_room σ r, VOTE_RESULT_SYNC success pinId targetDay)].
Proof.
  intros Hexec st. subst st. rewrite handle_VOTE_FINAL_RESULT by done. simpl.
  split; [done|]. split; [done|].
  destruct (truthy success); simpl.
  - rewrite lookup_alter_eq.
    split; [done|]. split; [done|]. split; [|split; [|done]].
    + by destruct (pins (db σ) !! pinId).
    + intros other Hne. by rewrite lookup_alter_ne.
  - split; [by destruct (pins (db σ) !! pinId)|].
    split; [by destruct (pins (db σ) !! pinId)|].
    split; [by destruct (pins (db σ) !! pinId)|]. done.
Qed.

Lemma vote_result_applies_client_flag_witness :
  store_runs with_pin_3 (write_ok calm) sql_update_assigned_day 2
  ∧ assigned_day <$> pins (db with_pin_3) !! "pin-3" = Some 0
  ∧ assigned_day
      <$> pins (db (after (handle "s1" calm
                             (VOTE_FINAL_RESULT "chaos-room-1" (JBool true) "pin-3" 2)
                             with_pin_3))) !! "pin-3"
    = Some 2.
Proof.
  assert (pins (db with_pin_3) !! "pin-3" = Some (unscheduled "Osaka Castle"))
    as Hrow by (vm_compute; reflexivity).
  split; [reflexivity|]. split; [by rewrite Hrow|].
  pose proof (vote_result_applies_client_flag "s1" calm with_pin_3 "chaos-room-1"
                (JBool true) "pin-3" 2 eq_refl) as Hthm.
  cbv zeta in Hthm. destruct Hthm as (_ & _ & _ & _ & Hday & _).
  etrans; [exact Hday|]. by rewrite Hrow.
Defined.

(** C2 fails as stated: three voters, all of them disagree; their
    browsers send the ballots and then VOTE_FINAL_RESULT with
    [success: true]; the pin is moved to the target day. *)
Lemma vote_ignores_majority :
  ¬ vote_follows_majority with_pin_3 "chaos-room-1" calm "vote_1" "pin-3" 2
      [("user_a", false); ("user_b", false); ("user_c", false)].
Proof.
  unfold vote_follows_majority.
  replace (Vote.success _) with false by (vm_compute; reflexivity).
  refute_by_evaluation.
Qed.

(** C7, as the code has it.  Ballots never reach the outcome: a
    finalization preceded and followed by any ballots (late ones and
    repeated ones included) leaves the server exactly as the finalization
    alone does, and every ballot is relayed to the room as it was sent,
    none replacing another. *)
Theorem ballots_never_reach_the_outcome (pre post : list ballot) s e σ r success
    pinId targetDay :
  let st := handle s e (VOTE_FINAL_RESULT r success pinId targetDay) σ in
  run ((submit <$> pre)
       ++ (s, e, VOTE_FINAL_RESULT r success pinId targetDay) :: (submit <$> post)) σ
  = (after st, ((relayed σ <$> pre) ++ sent st ++ (relayed σ <$> post))%list).
Proof.
  intros st. rewrite run_app, run_ballots, run_cons, run_ballots. simpl. fold st.
  f_equal. f_equal. f_equal. apply list_fmap_ext. intros _ b _.
  unfold relayed, in_room. subst st. by rewrite vote_result_keeps_members.
Qed.

(** C7 fails as stated: after the same three ballots the pin ends on a
    different day according to the [success] field alone, and of two
    ballots of one participant both stand. *)
Lemma outcome_not_from_ballots :
  ¬ outcome_from_ballots_only with_pin_3
      [cast "user_a" true; cast "user_b" true; cast "user_c" false]
      ("user_a", calm, VOTE_FINAL_RESULT "chaos-room-1" (JBool true) "pin-3" 2)
      ("user_a", calm, VOTE_FINAL_RESULT "chaos-room-1" (JBool false) "pin-3" 2)
      "pin-3"
  ∧ ¬ at_most_one_ballot_stands with_pin_3
        [cast "user_a" true; cast "user_a" false] "vote_1" "user_a".
Proof.
  split.
  - unfold outcome_from_ballots_only. refute_by_evaluation.
  - unfold at_most_one_ballot_stands. refute_by_evaluation.
Qed.

(** ** Failing writes *)

(** A handler other than [join_room] that is rejected has changed nothing
    and sent nothing: every one of them calls the store before its first
    [emit]. *)
Lemma rejected_mutation_leaves_no_trace s e m σ :
  is_mutation m = true →
  completed (handle s e m σ) = false →
  handle s e m σ = {| completed := false; after := σ; sent := [] |}.
Proof.
  destruct m; try discriminate; intros _;
    unfold handle, handler, on_DRAW_ACTION, on_UNDO_REQUEST, on_SET_PIN_TIME,
      on_VOTE_FINAL_RESULT, execute, get, query, bind, get_server, ret; simpl.
  - destruct (helper_runs _ _ _ _); [|done].
    by destruct (insert_canvas_event _ _ _ _ _ _ _).
  - destruct (helper_runs _ (read_ok e) _ _); [|done].
    destruct (select_last_event _ _ _) as [[id ev]|]; [|done]. simpl.
    by destruct (helper_runs _ (write_ok e) _ _).
  - destruct (truthy success); [|done].
    by destruct (helper_runs _ _ _ _).
  - by destruct (helper_runs _ _ _ _).
Qed.

(** An unreachable store rejects the write of DRAW_ACTION and of
    SET_PIN_TIME. *)
Lemma unreachable_store_rejects s e σ r userId type payload pinId timeSlot day :
  write_ok e = false →
  completed (handle s e (DRAW_ACTION r userId type payload) σ) = false
  ∧ completed (handle s e (SET_PIN_TIME r pinId timeSlot day) σ) = false.
Proof.
  intros Hdown. split.
  - unfold handle, handler, on_DRAW_ACTION, bind at 1.
    by rewrite execute_refused by (unfold helper_runs; by rewrite Hdown).
  - unfold handle, handler, on_SET_PIN_TIME, bind at 1.
    by rewrite execute_refused by (unfold helper_runs; by rewrite Hdown).
Qed.

(** C8, as the code has it.  When the write of a canvas or schedule
    mutation fails, the handler stops there: no table changes, nothing
    is broadcast, and nothing at all is sent to the socket the request
    came from. *)
Theorem failed_write_is_silent s e m σ :
  is_mutation m = true →
  completed (handle s e m σ) = false →
  after (handle s e m σ) = σ
  ∧ sent (handle s e m σ) = []
  ∧ ¬ reaches s (sent (handle s e m σ)).
Proof.
  intros Hmut Hfail. rewrite (rejected_mutation_leaves_no_trace _ _ _ _ Hmut Hfail).
  simpl. split; [done|]. split; [done|].
  unfold reaches. intros Hsome. by apply Exists_nil in Hsome.
Qed.

Lemma failed_write_is_silent_witness :
  is_mutation (DRAW_ACTION "chaos-room-1" "user_a" "line" JNull) = true
  ∧ completed (handle "s1" store_down
                 (DRAW_ACTION "chaos-room-1" "user_a" "line" JNull) two_strokes)
    = false
  ∧ after (handle "s1" store_down
             (DRAW_ACTION "chaos-room-1" "user_a" "line" JNull) two_strokes)
    = two_strokes.
Proof.
  split; [reflexivity|]. split; [reflexivity|].
  apply (failed_write_is_silent "s1" store_down
           (DRAW_ACTION "chaos-room-1" "user_a" "line" JNull) two_strokes);
    reflexivity.
Defined.

(** C8 fails as stated: with the store out of reach, the socket that sent
    a DRAW_ACTION or a SET_PIN_TIME receives nothing, so no error either. *)
Lemma failed_write_not_reported :
  completed (handle "s1" store_down
               (DRAW_ACTION "chaos-room-1" "user_a" "line" JNull) two_strokes) = false
  ∧ ¬ reaches "s1" (sent (handle "s1" store_down
                            (DRAW_ACTION "chaos-room-1" "user_a" "line" JNull)
                            two_strokes))
  ∧ completed (handle "s1" store_down
                 (SET_PIN_TIME "chaos-room-1" "pin-3" "09:00" 2) with_pin_3) = false
  ∧ ¬ reaches "s1" (sent (handle "s1" store_down
                            (SET_PIN_TIME "chaos-room-1" "pin-3" "09:00" 2)
                            with_pin_3)).
Proof.
  split; [reflexivity|]. split; [unfold reaches; refute_by_evaluation|].
  split; [reflexivity|]. unfold reaches; refute_by_evaluation.
Qed.

(** ** Profiles *)

Lemma handle_UPDATE_PROFILE s e σ r userId nick avatarUrl :
  handle s e (UPDATE_PROFILE r userId nick avatarUrl) σ
  = if write_ok e
    then {| completed := true;
            after := with_db (default (db σ) (upsert_user userId nick avatarUrl (db σ))) σ;
            sent := [(in_room σ r, PROFILE_UPDATED userId nick avatarUrl)] |}
    else {| completed := false; after := σ; sent := [] |}.
Proof.
  unfold handle, handler, on_UPDATE_PROFILE, run_direct, bind, get_server. simpl.
  by destruct (write_ok e).
Qed.

(** C9.  For a user whose row exists, a profile update leaves that row's
    [status_emoji], [rps_wins] and [undo_used] as they were (its
    [nickname] and [avatar_url] are the new ones when the store performs
    the write, and the old ones when it does not), leaves the row of
    every other user as it was, and changes no other table and no room
    membership. *)
Theorem profile_update_keeps_other_columns s e σ r userId nick avatarUrl u :
  users (db σ) !! userId = Some u →
  let σ' := after (handle s e (UPDATE_PROFILE r userId nick avatarUrl) σ) in
  (∃ u', users (db σ') !! userId = Some u'
         ∧ status_emoji u' = status_emoji u
         ∧ rps_wins u' = rps_wins u
         ∧ undo_used u' = undo_used u
         ∧ (if write_ok e
            then nickname u' = Some nick ∧ avatar_url u' = Some avatarUrl
            else u' = u))
  ∧ (∀ other, other ≠ userId → users (db σ') !! other = users (db σ) !! other)
  ∧ trips (db σ') = trips (db σ)
  ∧ rooms (db σ') = rooms (db σ)
  ∧ pins (db σ') = pins (db σ)
  ∧ canvas_events (db σ') = canvas_events (db σ)
  ∧ messages (db σ') = messages (db σ)
  ∧ members σ' = members σ.
Proof.
  intros Hrow σ'. subst σ'. rewrite handle_UPDATE_PROFILE.
  destruct (write_ok e); simpl.
  - unfold upsert_user. rewrite Hrow. simpl. split.
    + eexists. rewrite lookup_insert_eq. split; [done|]. simpl. done.
    + split; [|done]. intros other Hne. by rewrite lookup_insert_ne.
  - split; [|done]. by exists u.
Qed.

Lemma profile_update_keeps_other_columns_witness :
  users (db with_veteran) !! "user_a" = Some veteran
  ∧ users (db (after (handle "s1" calm
                        (UPDATE_PROFILE "chaos-room-1" "user_a" "new" "https://a/new.png")
                        with_veteran))) !! "user_b"
    = Some veteran.
Proof.
  assert (users (db with_veteran) !! "user_a" = Some veteran) as Hrow
    by (vm_compute; reflexivity).
  split; [exact Hrow|].
  destruct (profile_update_keeps_other_columns "s1" calm with_veteran "chaos-room-1"
              "user_a" "new" "https://a/new.png" veteran Hrow) as (_ & Hothers & _).
  rewrite Hothers; [vm_compute; reflexivity|]. intros Heq. discriminate Heq.
Defined.

(** For DRAW_ACTION and SET_PIN_TIME, being rejected is the same as the
    write failing: the store does not run the statement, or (for the
    INSERT) the event id is taken. *)
Lemma draw_action_rejected_iff s e σ r userId type payload :
  completed (handle s e (DRAW_ACTION r userId type payload) σ) = false
  ↔ helper_runs (pgPool σ) (write_ok e) sql_insert_canvas_event 5 = false
    ∨ is_Some (canvas_events (db σ)
                 !! ("evt_" +:+ pretty (now e) +:+ "_" +:+ rand e)).
Proof.
  unfold handle, handler, on_DRAW_ACTION, execute, insert_canvas_event, bind,
    get_server; simpl.
  destruct (helper_runs _ _ _ _); simpl.
  - destruct (canvas_events (db σ) !! _) as [ev|] eqn:Hid; simpl.
    + split; [intros _; right; by exists ev|done].
    + split; [done|]. intros [?|[? ?]]; done.
  - split; [by left|done].
Qed.

Lemma set_pin_time_rejected_iff s e σ r pinId timeSlot day :
  completed (handle s e (SET_PIN_TIME r pinId timeSlot day) σ) = false
  ↔ helper_runs (pgPool σ) (write_ok e) sql_update_pin_time 3 = false.
Proof.
  unfold handle, handler, on_SET_PIN_TIME, execute, bind, get_server; simpl.
  by destruct (helper_runs _ _ _ _).
Qed.

(** ** Presence *)

(** What a join sends once the store answers the SELECT: the trips to the
    joining socket, then USER_JOINED to the room, which by then contains
    the joining socket. *)
Lemma join_room_deliveries s e σ r :
  store_runs σ (read_ok e) sql_select_trips 1 →
  sent (handle s e (join_room r) σ)
  = [({[s]}, SYNC_TRIPS (select_trips r (db σ)));
     ({[s]} ∪ in_room σ r, USER_JOINED s)].
Proof.
  intros Hget. unfold store_runs in Hget.
  unfold handle, handler, on_join_room, socket_join, query, bind, get_server; simpl.
  rewrite Hget. simpl. unfold in_room at 1. simpl. by rewrite lookup_insert_eq.
Qed.

(** The sibling path: a cursor move goes to the room without its sender. *)
Lemma cursor_move_skips_sender s e σ r userId center :
  sent (handle s e (MOVE_CURSOR r userId center) σ)
  = [(in_room σ r ∖ {[s]}, USER_CURSOR_MOVED userId center)]
  ∧ ¬ reaches s (sent (handle s e (MOVE_CURSOR r userId center) σ)).
Proof.
  split; [reflexivity|]. unfold reaches. simpl.
  intros [Hin|Hnone]%Exists_cons; [|by apply Exists_nil in Hnone].
  simpl in Hin. apply elem_of_difference in Hin as [_ Hnot].
  apply Hnot. by apply elem_of_singleton.
Qed.

(** Whoever is in the room already, the joining socket is among the
    receivers of its own USER_JOINED. *)
Lemma join_room_reaches_joiner s e σ r :
  store_runs σ (read_ok e) sql_select_trips 1 →
  Exists (λ d : delivery, d.2 = USER_JOINED s ∧ s ∈ d.1)
    (sent (handle s e (join_room r) σ)).
Proof.
  intros Hget. rewrite join_room_deliveries by done.
  apply Exists_cons_tl, Exists_cons_hd. simpl. split; [done|].
  apply elem_of_union_l. by apply elem_of_singleton.
Qed.

(** C6 at a concrete join.  Sockets s1 and s2 are in the room and s3
    joins: USER_JOINED carries only the id of the joining socket, and it
    is delivered to s1, s2 and also to s3 itself, whereas the claim has
    it delivered to the other members only. *)
Theorem join_room_notifies_the_joiner :
  sent (handle "s3" calm (join_room "chaos-room-1") two_strokes)
  = [({["s3"]}, SYNC_TRIPS []); ({["s1"; "s2"; "s3"]}, USER_JOINED "s3")]
  ∧ Exists (λ d : delivery, d.2 = USER_JOINED "s3" ∧ "s3" ∈ d.1)
      (sent (handle "s3" calm (join_room "chaos-room-1") two_strokes)).
Proof.
  split; [vm_compute; reflexivity|].
  apply (bool_decide_unpack _). vm_compute. reflexivity.
Qed.

(** ** The PostgreSQL branch of the helpers *)

(** The [?] of a statement that begins with a keyword is never at offset
    0, so the rewritten text never refers to [$1]: *)
Example pg_placeholders_of_update :
  pg_placeholders sql_update_assigned_day = [32; 45]%nat.
Proof. reflexivity. Qed.

Lemma question_marks_from sql i :
  Forall (λ k, i ≤ k)%nat (question_marks sql i).
Proof.
  revert i. induction sql as [|c rest IH]; intros i; simpl; [constructor|].
  assert (Forall (λ k, i ≤ k)%nat (question_marks rest (S i))) as Hrest.
  { eapply Forall_impl; [apply IH|]. simpl. lia. }
  destruct (Ascii.eqb c "?"); [constructor; [lia|done]|done].
Qed.

(** A statement with parameters is accepted only if its first character
    is a [?], whatever the rest of its text. *)
Lemma pg_accepts_needs_leading_placeholder c rest n :
  pg_accepts (String c rest) (S n) = true → c = "?"%char.
Proof.
  unfold pg_accepts, pg_placeholders. intros Heq%bool_decide_eq_true.
  simpl in Heq. destruct (Ascii.eqb c "?") eqn:Hc; [by apply Ascii.eqb_eq|].
  pose proof (question_marks_from rest 1) as Hfrom.
  destruct (question_marks rest 1) as [|k ks]; [done|].
  apply Forall_cons in Hfrom as [Hk _]. simpl in Heq.
  injection Heq as Hone _. lia.
Qed.

(** PostgreSQL accepts none of the statements that go through [query],
    [get] and [execute]. *)
Lemma postgres_accepts_no_helper_statement :
  Forall (λ st : string * nat, pg_accepts st.1 st.2 = false) helper_statements.
Proof. repeat constructor. Qed.

(** So with [DATABASE_URL] set an undo request is rejected at its SELECT:
    nothing is marked and nothing is broadcast. *)
Lemma postgres_undo_request_rejected s e σ r :
  pgPool σ = Postgres →
  handle s e (UNDO_REQUEST r) σ = {| completed := false; after := σ; sent := [] |}.
Proof.
  intros Hpg. unfold handle, handler, on_UNDO_REQUEST, get, bind at 1.
  rewrite query_refused; [done|]. rewrite Hpg. simpl. apply andb_false_r.
Qed.

(** ** The scenarios of the specification, run on the handlers *)

(** Undo on a room without events: nothing written, nothing broadcast. *)
Example undo_on_empty_room :
  handle "s1" calm (UNDO_REQUEST "chaos-room-1")
    {| pgPool := SQLite; db := empty_database;
       members := {["chaos-room-1" := {["s1"]}]} |}
  = {| completed := true;
       after := {| pgPool := SQLite; db := empty_database;
                   members := {["chaos-room-1" := {["s1"]}]} |};
       sent := [] |}.
Proof. vm_compute. reflexivity. Qed.

(** Two agree, one disagrees, and the browsers report success: pin-3 is
    moved to day 2. *)
Example vote_with_two_of_three_agreeing :
  assigned_day
    <$> pins (db (run (browsers_vote "chaos-room-1" calm "vote_1" "pin-3" 2
                         [("user_a", true); ("user_b", true); ("user_c", false)])
                    with_pin_3).1) !! "pin-3"
  = Some 2.
Proof. vm_compute. reflexivity. Qed.

(** Two strokes drawn in the same second: which of them an undo takes
    first is the engine's choice. *)
Example undo_among_equal_timestamps :
  events (sent (handle "s1" calm (UNDO_REQUEST "chaos-room-1") two_strokes))
  ≠ events (sent (handle "s1"
                    {| now := now calm; later := later calm; rand := rand calm;
                       db_now := db_now calm; read_ok := true; write_ok := true;
                       tie := 1 |}
                    (UNDO_REQUEST "chaos-room-1") two_strokes)).
Proof. refute_by_evaluation. Qed.

(** * Further properties of the handlers *)

(** Unfolds a handler run down to the state and the deliveries. *)
Ltac run_handler :=
  unfold handle, handler, on_join_room, on_UPDATE_PROFILE, on_MOVE_CURSOR,
    on_CREATE_TRIP, on_GET_PINS, on_DRAW_ACTION, on_UNDO_REQUEST, on_SUMMON_USER,
    on_DRAG_PIN, on_BATTLE_START_TRIGGER, on_RPS_CHOICE, on_BATTLE_RESULT,
    on_DROP_PIN, on_SUBMIT_VOTE, on_VOTE_FINAL_RESULT, on_SET_PIN_TIME,
    on_SEND_MESSAGE, on_SET_AI_STATE, execute, get, query, run_direct, io_to_emit,
    socket_to_emit, socket_emit, socket_join, emit, bind, get_server, put_db, ret,
    throw, upsert_user, insert_trip, insert_canvas_event, mark_undone,
    update_assigned_day, update_pin_time, insert_message, update_ai_thinking;
  simpl.

(** ** Room membership *)

(** Membership after one handler: only [join_room] touches it, and it
    does so before its SELECT, hence also when that is refused. *)
Lemma members_after s e m σ :
  members (after (handle s e m σ))
  = match m with
    | join_room r => <[r := {[s]} ∪ in_room σ r]> (members σ)
    | _ => members σ
    end.
Proof.
  destruct m; run_handler; repeat case_match; simplify_eq/=; done.
Qed.

Lemma in_room_after s e m σ r :
  in_room (after (handle s e m σ)) r
  = match m with
    | join_room r' => if decide (r' = r) then {[s]} ∪ in_room σ r else in_room σ r
    | _ => in_room σ r
    end.
Proof.
  unfold in_room at 1. rewrite members_after. destruct m; try done.
  rewrite lookup_insert. destruct (decide (roomId = r)) as [->|]; done.
Qed.

(** Membership when a connection opens or closes. *)
Lemma in_room_open s σ r :
  in_room (open_connection s σ) r
  = if decide (s = r) then {[s]} ∪ in_room σ r else in_room σ r.
Proof.
  unfold in_room at 1. simpl. rewrite lookup_insert.
  repeat case_decide; simplify_eq/=; done.
Qed.

Lemma in_room_close s σ r :
  in_room (close_connection s σ) r = in_room σ r ∖ {[s]}.
Proof.
  unfold in_room. simpl. rewrite lookup_fmap.
  destruct (members σ !! r); simpl; [done|]. set_solver.
Qed.

Lemma serve_cons o rest σ :
  serve (o :: rest) σ
  = ((serve rest (occur o σ).1).1, ((occur o σ).2 ++ (serve rest (occur o σ).1).2)%list).
Proof. simpl. by destruct (serve rest _). Qed.

Lemma serve_app a b σ :
  serve (a ++ b) σ
  = ((serve b (serve a σ).1).1, ((serve a σ).2 ++ (serve b (serve a σ).1).2)%list).
Proof.
  revert σ. induction a as [|o a IH]; intros σ.
  - simpl. by destruct (serve b σ).
  - rewrite <-app_comm_cons, !serve_cons, IH. simpl. by rewrite app_assoc.
Qed.

(** Requests alone are served as [run] handles them. *)
Lemma serve_requests ins σ :
  serve ((λ i : input, Request i.1.1 i.1.2 i.2) <$> ins) σ = run ins σ.
Proof.
  revert σ. induction ins as [|[[s e] m] ins IH]; intros σ; [done|].
  rewrite fmap_cons, serve_cons, run_cons. simpl. by rewrite IH.
Qed.

(** One occurrence takes no socket out of a room but the one whose
    connection closes. *)
Lemma stays_in_room_occur o σ c r :
  stays_open c o → c ∈ in_room σ r → c ∈ in_room (occur o σ).1 r.
Proof.
  intros Hopen Hin. destruct o as [s|s e m|s]; simpl.
  - rewrite in_room_open. case_decide; [apply elem_of_union_r|]; done.
  - rewrite in_room_after. destruct m; try done.
    case_decide; [apply elem_of_union_r|]; done.
  - rewrite in_room_close. simpl in Hopen. set_solver.
Qed.

(** [lobby] is where the server is once two browsers have connected and
    joined. *)
Lemma two_browsers_in_lobby : (serve two_browsers started).1 = lobby.
Proof. vm_compute. reflexivity. Qed.

(** X1.  The handlers never take a socket out of a room: over any
    sequence of opening connections, requests and closing connections, a
    socket that is in a room is still in it as long as its own
    connection has not closed (the server has no leave and no
    disconnect handling of its own); once its connection closes,
    socket.io has taken it out of every room. *)
Theorem socket_leaves_rooms_only_by_closing occ σ s r :
  s ∈ in_room σ r →
  (Forall (stays_open s) occ → s ∈ in_room (serve occ σ).1 r)
  ∧ ∀ r', s ∉ in_room (serve (occ ++ [Closes s]) σ).1 r'.
Proof.
  intros Hin. split.
  - revert σ Hin. induction occ as [|o occ IH]; intros σ Hin Hopen; [done|].
    apply Forall_cons in Hopen as [Ho Hopen].
    rewrite serve_cons. simpl. apply IH; [|done]. by apply stays_in_room_occur.
  - intros r'. rewrite serve_app. simpl. rewrite in_room_close. set_solver.
Qed.

Lemma socket_leaves_rooms_only_by_closing_witness :
  "s1" ∈ in_room lobby "chaos-room-1"
  ∧ "s1" ∈ in_room
             (serve [Request "s2" calm (UNDO_REQUEST "chaos-room-1"); Closes "s2";
                     Connects "s3"; Request "s3" store_down (join_room "chaos-room-1")]
                lobby).1 "chaos-room-1"
  ∧ "s1" ∉ in_room
             (serve [Request "s2" calm (UNDO_REQUEST "chaos-room-1"); Closes "s2";
                     Connects "s3"; Request "s3" store_down (join_room "chaos-room-1");
                     Closes "s1"]
                lobby).1 "chaos-room-1".
Proof.
  assert ("s1" ∈ in_room lobby "chaos-room-1") as Hin
    by (apply (bool_decide_unpack _); vm_compute; reflexivity).
  split; [exact Hin|].
  destruct (socket_leaves_rooms_only_by_closing
              [Request "s2" calm (UNDO_REQUEST "chaos-room-1"); Closes "s2";
               Connects "s3"; Request "s3" store_down (join_room "chaos-room-1")]
              lobby "s1" "chaos-room-1" Hin) as [Hstays Hleft].
  split; [|apply Hleft].
  apply Hstays. repeat constructor. simpl. discriminate.
Defined.

(** X2.  A join puts the socket into the room it names and changes the
    membership of no other room; joining again changes nothing more.
    This holds whether or not the store answers the SELECT. *)
Theorem join_room_membership s e σ r :
  let σ1 := after (handle s e (join_room r) σ) in
  in_room σ1 r = {[s]} ∪ in_room σ r
  ∧ (∀ r', r' ≠ r → in_room σ1 r' = in_room σ r')
  ∧ ∀ e', members (after (handle s e' (join_room r) σ1)) = members σ1.
Proof.
  intros σ1. subst σ1. split; [|split].
  - rewrite in_room_after. by rewrite decide_True.
  - intros r' Hne. rewrite in_room_after. by rewrite decide_False.
  - intros e'. rewrite (members_after s e' (join_room r)).
    rewrite in_room_after, decide_True by done.
    rewrite members_after. rewrite insert_insert_eq. f_equal. set_solver.
Qed.

(** X3.  Whatever the handler and the state of the store, every event it
    emits goes only to the socket that sent the request and to sockets
    that are in the room the request names. *)
Theorem deliveries_stay_in_room s e m σ :
  Forall (λ d : delivery,
            d.1 ⊆ {[s]} ∪ from_option (in_room (after (handle s e m σ))) ∅ (room_of m))
    (sent (handle s e m σ)).
Proof.
  destruct m; run_handler; repeat case_match; simplify_eq/=;
    repeat constructor; simpl; try set_solver.
  all: unfold in_room; simpl; rewrite lookup_insert_eq; simpl; set_solver.
Qed.

(** X4.  The handlers that only pass an event on run to their end
    whatever the store does, leave the server as it was, and emit
    exactly one event. *)
Theorem relays_need_no_store s e m σ :
  is_relay m = true →
  completed (handle s e m σ) = true
  ∧ after (handle s e m σ) = σ
  ∧ length (sent (handle s e m σ)) = 1%nat.
Proof.
  destruct m; try discriminate; intros _; run_handler; done.
Qed.

Lemma relays_need_no_store_witness :
  is_relay (DROP_PIN "chaos-room-1" "pin-3" 2 "user_a") = true
  ∧ after (handle "s1" store_down (DROP_PIN "chaos-room-1" "pin-3" 2 "user_a")
             two_strokes) = two_strokes.
Proof.
  split; [reflexivity|].
  apply (relays_need_no_store "s1" store_down
           (DROP_PIN "chaos-room-1" "pin-3" 2 "user_a") two_strokes).
  reflexivity.
Defined.

(** ** What the tables keep *)

Lemma undone_or_same_trans ev1 ev2 ev3 :
  undone_or_same ev1 ev2 → undone_or_same ev2 ev3 → undone_or_same ev1 ev3.
Proof.
  unfold undone_or_same. intros [->| ->] [->| ->]; auto.
Qed.

(** One handler leaves every stored event in place, at most marking it. *)
Lemma canvas_event_after s e m σ id ev :
  canvas_events (db σ) !! id = Some ev →
  ∃ ev', canvas_events (db (after (handle s e m σ))) !! id = Some ev'
         ∧ undone_or_same ev ev'.
Proof.
  intros Hrow.
  destruct m; run_handler; repeat case_match; simplify_eq/=;
    try (exists ev; split; [done|by left]).
  - (* DRAW_ACTION: the new key is not [id] *)
    exists ev. split; [|by left].
    rewrite lookup_insert_ne; [done|]. intros <-. congruence.
  - (* UNDO_REQUEST *)
    rewrite lookup_alter. case_decide as Hid; subst; rewrite Hrow; simpl.
    + eexists. split; [done|by right].
    + exists ev. split; [done|by left].
Qed.

(** X5.  Over any sequence of inbound events a stored canvas event is
    never deleted and never edited: its room, author, type, payload and
    [created_at] stay, and [is_undone] either stays or has become 1; an
    event that is undone stays undone. *)
Theorem canvas_events_only_get_undone ins σ id ev :
  canvas_events (db σ) !! id = Some ev →
  ∃ ev', canvas_events (db (run ins σ).1) !! id = Some ev'
         ∧ ev_room_id ev' = ev_room_id ev ∧ ev_user_id ev' = ev_user_id ev
         ∧ ev_type ev' = ev_type ev ∧ ev_payload ev' = ev_payload ev
         ∧ created_at ev' = created_at ev
         ∧ (is_undone ev' = is_undone ev ∨ is_undone ev' = 1)
         ∧ (is_undone ev = 1 → ev' = ev).
Proof.
  intros Hrow.
  assert (∃ ev', canvas_events (db (run ins σ).1) !! id = Some ev'
                 ∧ undone_or_same ev ev') as (ev' & Hrow' & Hrel).
  { revert σ ev Hrow. induction ins as [|[[s e] m] ins IH]; intros σ ev Hrow.
    - exists ev. split; [done|by left].
    - rewrite run_cons. simpl.
      destruct (canvas_event_after s e m σ id ev Hrow) as (ev1 & Hrow1 & Hrel1).
      destruct (IH _ _ Hrow1) as (ev2 & Hrow2 & Hrel2).
      exists ev2. split; [done|]. by eapply undone_or_same_trans. }
  exists ev'. split; [done|].
  destruct Hrel as [->| ->]; simpl; repeat split; auto.
  intros Hone. destruct ev; simpl in *; by subst.
Qed.

Lemma canvas_events_only_get_undone_witness :
  canvas_events (db two_strokes) !! "evt_1_a"
  = Some (stroke "chaos-room-1" "user_a" 1700000000 0)
  ∧ ∃ ev',
      canvas_events (db (run [("s1", calm, UNDO_REQUEST "chaos-room-1");
                              ("s2", calm, DRAW_ACTION "chaos-room-1" "user_b" "line"
                                             JNull)] two_strokes).1) !! "evt_1_a"
      = Some ev' ∧ created_at ev' = 1700000000.
Proof.
  assert (canvas_events (db two_strokes) !! "evt_1_a"
          = Some (stroke "chaos-room-1" "user_a" 1700000000 0)) as Hrow
    by (vm_compute; reflexivity).
  split; [exact Hrow|].
  destruct (canvas_events_only_get_undone
              [("s1", calm, UNDO_REQUEST "chaos-room-1");
               ("s2", calm, DRAW_ACTION "chaos-room-1" "user_b" "line" JNull)]
              two_strokes "evt_1_a" _ Hrow)
    as (ev' & Hrow' & _ & _ & _ & _ & Htime & _).
  exists ev'. split; [exact Hrow'|exact Htime].
Defined.

Lemma pins_and_rooms_keys_after s e m σ :
  dom (pins (db (after (handle s e m σ)))) = dom (pins (db σ))
  ∧ dom (rooms (db (after (handle s e m σ)))) = dom (rooms (db σ)).
Proof.
  destruct m; run_handler; repeat case_match; simplify_eq/=;
    rewrite ?dom_alter_L; done.
Qed.

(** X6.  No sequence of inbound events creates or deletes a pin or a row
    of [rooms]: the key sets of both tables stay as they were.  The
    server has no INSERT for either table. *)
Theorem pins_and_rooms_never_created ins σ :
  dom (pins (db (run ins σ).1)) = dom (pins (db σ))
  ∧ dom (rooms (db (run ins σ).1)) = dom (rooms (db σ)).
Proof.
  revert σ. induction ins as [|[[s e] m] ins IH]; intros σ; [done|].
  rewrite run_cons. simpl.
  destruct (IH (after (handle s e m σ))) as [-> ->].
  apply pins_and_rooms_keys_after.
Qed.

(** ** Updates of a missing row *)

(** X7.  SET_PIN_TIME, a successful VOTE_FINAL_RESULT and SET_AI_STATE
    for an id that has no row change nothing in the store and still
    broadcast the change to the room as if it had been made. *)
Theorem update_of_missing_row_is_announced s e σ r pinId timeSlot day success
    isThinking :
  store_runs σ (write_ok e) sql_update_pin_time 3 →
  store_runs σ (write_ok e) sql_update_assigned_day 2 →
  store_runs σ (write_ok e) sql_update_ai_thinking 2 →
  pins (db σ) !! pinId = None →
  rooms (db σ) !! r = None →
  truthy success = true →
  handle s e (SET_PIN_TIME r pinId timeSlot day) σ
  = {| completed := true; after := σ;
       sent := [(in_room σ r, PIN_TIME_UPDATED pinId timeSlot day)] |}
  ∧ handle s e (VOTE_FINAL_RESULT r success pinId day) σ
    = {| completed := true; after := σ;
         sent := [(in_room σ r, VOTE_RESULT_SYNC success pinId day)] |}
  ∧ handle s e (SET_AI_STATE r isThinking) σ
    = {| completed := true; after := σ;
         sent := [(in_room σ r, AI_STATE isThinking)] |}.
Proof.
  unfold store_runs, room_id in *. intros Htime Hday Hai Hpin Hroom Htrue.
  assert (∀ f, alter f pinId (pins (db σ)) = pins (db σ)) as Hnopin.
  { intros f. apply map_eq. intros j. rewrite lookup_alter.
    destruct (decide (pinId = j)) as [<-|]; [by rewrite Hpin|done]. }
  assert (∀ f, alter f r (rooms (db σ)) = rooms (db σ)) as Hnoroom.
  { intros f. apply map_eq. intros j. rewrite lookup_alter.
    destruct (decide (r = j)) as [<-|]; [by rewrite Hroom|done]. }
  split; [|split]; run_handler.
  - rewrite Htime. simpl. rewrite Hnopin. by destruct σ as [? [] ?].
  - rewrite Htrue. simpl. rewrite Hday. simpl. rewrite Hnopin.
    by destruct σ as [? [] ?].
  - rewrite Hai. simpl. rewrite Hnoroom. by destruct σ as [? [] ?].
Qed.

Lemma update_of_missing_row_is_announced_witness :
  pins (db two_strokes) !! "pin-9" = None
  ∧ handle "s1" calm (SET_PIN_TIME "chaos-room-1" "pin-9" "09:00" 2) two_strokes
    = {| completed := true; after := two_strokes;
         sent := [(in_room two_strokes "chaos-room-1",
                   PIN_TIME_UPDATED "pin-9" "09:00" 2)] |}.
Proof.
  split; [vm_compute; reflexivity|].
  apply (update_of_missing_row_is_announced "s1" calm two_strokes "chaos-room-1"
           "pin-9" "09:00" 2 (JBool true) (JBool true));
    try reflexivity; vm_compute; reflexivity.
Defined.

(** ** Scheduling a pin *)

Lemma handle_SET_PIN_TIME s e σ r pinId timeSlot day :
  store_runs σ (write_ok e) sql_update_pin_time 3 →
  handle s e (SET_PIN_TIME r pinId timeSlot day) σ
  = {| completed := true;
       after := with_db (with_pins (alter (set_pin_time timeSlot day) pinId
                                      (pins (db σ))) (db σ)) σ;
       sent := [(in_room σ r, PIN_TIME_UPDATED pinId timeSlot day)] |}.
Proof.
  intros Hexec. unfold handle, handler, on_SET_PIN_TIME, bind at 1.
  by rewrite (execute_runs σ [] _ _ _ (update_pin_time timeSlot day pinId) _
                Hexec eq_refl).
Qed.

(** X8.  Of two SET_PIN_TIME requests for the same pin the later one
    wins: the server ends as if only the second had been handled. *)
Theorem set_pin_time_last_writer_wins s1 e1 s2 e2 σ r pinId slot1 day1 slot2 day2 :
  store_runs σ (write_ok e1) sql_update_pin_time 3 →
  store_runs σ (write_ok e2) sql_update_pin_time 3 →
  (run [(s1, e1, SET_PIN_TIME r pinId slot1 day1);
        (s2, e2, SET_PIN_TIME r pinId slot2 day2)] σ).1
  = after (handle s2 e2 (SET_PIN_TIME r pinId slot2 day2) σ).
Proof.
  intros Hrun1 Hrun2. rewrite !run_cons. simpl.
  rewrite (handle_SET_PIN_TIME s2 e2 σ) by done.
  rewrite (handle_SET_PIN_TIME s1 e1 σ) by done. simpl.
  rewrite handle_SET_PIN_TIME by done. simpl.
  unfold with_db, with_pins. simpl. f_equal. f_equal.
  apply map_eq. intros j. destruct (decide (pinId = j)) as [<-|Hne].
  - rewrite !lookup_alter_eq. by destruct (pins (db σ) !! pinId).
  - by rewrite !lookup_alter_ne.
Qed.

Lemma set_pin_time_last_writer_wins_witness :
  store_runs with_pin_3 (write_ok calm) sql_update_pin_time 3
  ∧ (run [("s1", calm, SET_PIN_TIME "chaos-room-1" "pin-3" "09:00" 1);
          ("s2", calm, SET_PIN_TIME "chaos-room-1" "pin-3" "14:00" 3)] with_pin_3).1
    = after (handle "s2" calm (SET_PIN_TIME "chaos-room-1" "pin-3" "14:00" 3)
               with_pin_3).
Proof.
  split; [reflexivity|].
  apply (set_pin_time_last_writer_wins "s1" calm "s2" calm with_pin_3); reflexivity.
Defined.

(** X9.  For a pin that exists, SET_PIN_TIME followed by a successful
    VOTE_FINAL_RESULT leaves it with the time slot of the first and the
    day of the second; its other columns and all other pins are as
    before. *)
Theorem vote_after_set_pin_time_keeps_slot s1 e1 s2 e2 σ r pinId slot day success
    targetDay p :
  store_runs σ (write_ok e1) sql_update_pin_time 3 →
  store_runs σ (write_ok e2) sql_update_assigned_day 2 →
  truthy success = true →
  pins (db σ) !! pinId = Some p →
  let σ' := (run [(s1, e1, SET_PIN_TIME r pinId slot day);
                  (s2, e2, VOTE_FINAL_RESULT r success pinId targetDay)] σ).1 in
  pins (db σ') !! pinId = Some (set_assigned_day targetDay (set_pin_time slot day p))
  ∧ time_slot (set_assigned_day targetDay (set_pin_time slot day p)) = Some slot
  ∧ assigned_day (set_assigned_day targetDay (set_pin_time slot day p)) = targetDay
  ∧ ∀ other, other ≠ pinId → pins (db σ') !! other = pins (db σ) !! other.
Proof.
  intros Hrun1 Hrun2 Htrue Hpin σ'. subst σ'. rewrite !run_cons. simpl.
  rewrite (handle_SET_PIN_TIME s1 e1 σ) by done. simpl.
  rewrite handle_VOTE_FINAL_RESULT by done. rewrite Htrue. simpl.
  split; [|split; [done|split; [done|]]].
  - by rewrite !lookup_alter_eq, Hpin.
  - intros other Hne. by rewrite !lookup_alter_ne.
Qed.

Lemma vote_after_set_pin_time_keeps_slot_witness :
  pins (db with_pin_3) !! "pin-3" = Some (unscheduled "Osaka Castle")
  ∧ time_slot
      <$> pins (db (run [("s1", calm, SET_PIN_TIME "chaos-room-1" "pin-3" "09:00" 1);
                         ("s2", calm, VOTE_FINAL_RESULT "chaos-room-1" (JBool true)
                                        "pin-3" 2)] with_pin_3).1) !! "pin-3"
    = Some (Some "09:00").
Proof.
  assert (pins (db with_pin_3) !! "pin-3" = Some (unscheduled "Osaka Castle"))
    as Hpin by (vm_compute; reflexivity).
  split; [exact Hpin|].
  pose proof (vote_after_set_pin_time_keeps_slot "s1" calm "s2" calm with_pin_3
                "chaos-room-1" "pin-3" "09:00" 1 (JBool true) 2 _
                eq_refl eq_refl eq_refl Hpin) as Hthm.
  cbv zeta in Hthm. destruct Hthm as (Hrow & _).
  exact (f_equal (fmap time_slot) Hrow).
Defined.

(** ** Profiles of new users *)

(** X10.  A profile update for a user without a row creates the row with
    the given nickname and avatar and the column defaults (no status
    emoji, no wins, no undo used), and tells the whole room, the sender
    included when it is a member. *)
Theorem profile_update_creates_row s e σ r userId nick avatarUrl :
  write_ok e = true →
  users (db σ) !! userId = None →
  let st := handle s e (UPDATE_PROFILE r userId nick avatarUrl) σ in
  users (db (after st)) !! userId
  = Some {| nickname := Some nick; avatar_url := Some avatarUrl;
            status_emoji := None; rps_wins := 0; undo_used := 0 |}
  ∧ dom (users (db (after st))) = {[userId]} ∪ dom (users (db σ))
  ∧ sent st = [(in_room σ r, PROFILE_UPDATED userId nick avatarUrl)].
Proof.
  intros Hup Hnew st. subst st. rewrite handle_UPDATE_PROFILE, Hup. simpl.
  unfold upsert_user. rewrite Hnew. simpl.
  split; [by rewrite lookup_insert_eq|]. split; [|done]. by rewrite dom_insert_L.
Qed.

Lemma profile_update_creates_row_witness :
  users (db two_strokes) !! "user_z" = None
  ∧ rps_wins
      <$> users (db (after (handle "s1" calm
                              (UPDATE_PROFILE "chaos-room-1" "user_z" "zed" "")
                              two_strokes))) !! "user_z"
    = Some 0.
Proof.
  assert (users (db two_strokes) !! "user_z" = None) as Hnew
    by (vm_compute; reflexivity).
  split; [exact Hnew|].
  pose proof (profile_update_creates_row "s1" calm two_strokes "chaos-room-1"
                "user_z" "zed" "" eq_refl Hnew) as Hthm.
  cbv zeta in Hthm. destruct Hthm as (Hrow & _).
  exact (f_equal (fmap rps_wins) Hrow).
Defined.

(** X11.  Repeating a profile update that went through changes nothing
    more: the server after the second is the server after the first,
    whether or not the second reaches the store. *)
Theorem profile_update_idempotent s1 e1 s2 e2 σ r userId nick avatarUrl :
  write_ok e1 = true →
  (run [(s1, e1, UPDATE_PROFILE r userId nick avatarUrl);
        (s2, e2, UPDATE_PROFILE r userId nick avatarUrl)] σ).1
  = after (handle s1 e1 (UPDATE_PROFILE r userId nick avatarUrl) σ).
Proof.
  intros Hup. rewrite !run_cons. simpl.
  rewrite (handle_UPDATE_PROFILE s1 e1 σ), Hup. simpl.
  rewrite handle_UPDATE_PROFILE. destruct (write_ok e2); [|done]. simpl.
  unfold with_db. simpl. f_equal. unfold upsert_user. simpl.
  rewrite lookup_insert_eq. simpl. rewrite insert_insert_eq.
  by destruct (users (db σ) !! userId).
Qed.

Lemma profile_update_idempotent_witness :
  write_ok calm = true
  ∧ (run [("s1", calm, UPDATE_PROFILE "chaos-room-1" "user_a" "new" "");
          ("s1", store_down, UPDATE_PROFILE "chaos-room-1" "user_a" "new" "")]
       with_veteran).1
    = after (handle "s1" calm (UPDATE_PROFILE "chaos-room-1" "user_a" "new" "")
               with_veteran).
Proof.
  split; [reflexivity|].
  apply (profile_update_idempotent "s1" calm "s1" store_down with_veteran).
  reflexivity.
Defined.

(** ** Drawing *)

Lemma handle_DRAW_ACTION s e σ r userId type payload :
  store_runs σ (write_ok e) sql_insert_canvas_event 5 →
  canvas_events (db σ) !! new_event_id e = None →
  handle s e (DRAW_ACTION r userId type payload) σ
  = {| completed := true;
       after := with_db (with_canvas_events
                           (<[new_event_id e := drawn e r userId type payload]>
                              (canvas_events (db σ))) (db σ)) σ;
       sent := [(in_room σ r, SYNC_ACTION (new_event_id e) userId type payload)] |}.
Proof.
  intros Hexec Hfresh. unfold handle, handler, on_DRAW_ACTION, bind at 1.
  erewrite (execute_runs σ [] _ _ _ _ _ Hexec); [done|].
  unfold insert_canvas_event. fold (new_event_id e). by rewrite Hfresh.
Qed.

(** X12.  A DRAW_ACTION whose INSERT goes through stores the stroke under
    the id it broadcasts: afterwards that id holds the room, author,
    type and payload of the request, not undone, it is among the live
    events of the room, and every row stored before is unchanged. *)
Theorem draw_action_stores_what_it_broadcasts s e σ r userId type payload :
  store_runs σ (write_ok e) sql_insert_canvas_event 5 →
  canvas_events (db σ) !! new_event_id e = None →
  let st := handle s e (DRAW_ACTION r userId type payload) σ in
  sent st = [(in_room σ r, SYNC_ACTION (new_event_id e) userId type payload)]
  ∧ canvas_events (db (after st)) !! new_event_id e
    = Some (drawn e r userId type payload)
  ∧ (new_event_id e, drawn e r userId type payload)
    ∈ live_events r (canvas_events (db (after st)))
  ∧ ∀ id ev, canvas_events (db σ) !! id = Some ev →
             canvas_events (db (after st)) !! id = Some ev.
Proof.
  intros Hexec Hfresh st. subst st. rewrite handle_DRAW_ACTION by done. simpl.
  split; [done|]. split; [by rewrite lookup_insert_eq|]. split.
  - apply elem_of_live_events. by rewrite lookup_insert_eq.
  - intros id ev Hrow. rewrite lookup_insert_ne; [done|]. intros <-. congruence.
Qed.

Lemma draw_action_stores_what_it_broadcasts_witness :
  canvas_events (db two_strokes) !! new_event_id calm = None
  ∧ canvas_events
      (db (after (handle "s1" calm (DRAW_ACTION "chaos-room-1" "user_a" "line" JNull)
                    two_strokes))) !! new_event_id calm
    = Some (drawn calm "chaos-room-1" "user_a" "line" JNull).
Proof.
  assert (canvas_events (db two_strokes) !! new_event_id calm = None) as Hfresh
    by (vm_compute; reflexivity).
  split; [exact Hfresh|].
  pose proof (draw_action_stores_what_it_broadcasts "s1" calm two_strokes
                "chaos-room-1" "user_a" "line" JNull eq_refl Hfresh) as Hthm.
  cbv zeta in Hthm. exact (proj1 (proj2 Hthm)).
Defined.

(** X13.  An undo right after a stroke takes that stroke, provided its
    [created_at] is later than that of every live event of the room.
    (With equal timestamps the engine may take another one.) *)
Theorem undo_takes_the_stroke_just_drawn s1 e1 s2 e2 σ r userId type payload :
  store_runs σ (write_ok e1) sql_insert_canvas_event 5 →
  store_runs σ (read_ok e2) sql_select_last_event 1 →
  store_runs σ (write_ok e2) sql_mark_undone 1 →
  canvas_events (db σ) !! new_event_id e1 = None →
  (∀ id ev, canvas_events (db σ) !! id = Some ev → is_live r ev →
            created_at ev < db_now e1) →
  let σ1 := after (handle s1 e1 (DRAW_ACTION r userId type payload) σ) in
  sent (handle s2 e2 (UNDO_REQUEST r) σ1)
  = [(in_room σ r, UNDO_EXECUTE (new_event_id e1))].
Proof.
  intros Hins Hget Hexec Hfresh Hnewer σ1. subst σ1.
  rewrite handle_DRAW_ACTION by done. simpl.
  set (evs1 := <[new_event_id e1 := drawn e1 r userId type payload]>
                 (canvas_events (db σ))).
  set (σ1 := with_db _ σ).
  assert ((new_event_id e1, drawn e1 r userId type payload)
          ∈ live_events r (canvas_events (db σ1))) as Hin.
  { apply elem_of_live_events. simpl. unfold evs1. by rewrite lookup_insert_eq. }
  destruct (undo_step s2 e2 σ1 r Hget Hexec) as (id & ev & Hrecent & ->).
  { intros Hnil. rewrite Hnil in Hin. by apply not_elem_of_nil in Hin. }
  simpl. destruct Hrecent as (Hrow & Hlive & Hmax). simpl in Hrow, Hmax.
  destruct (decide (id = new_event_id e1)) as [->|Hne]; [done|].
  unfold evs1 in Hrow. rewrite lookup_insert_ne in Hrow by done.
  specialize (Hnewer id ev Hrow Hlive).
  specialize (Hmax (new_event_id e1) (drawn e1 r userId type payload)).
  unfold evs1 in Hmax. rewrite lookup_insert_eq in Hmax.
  specialize (Hmax eq_refl (conj eq_refl eq_refl)). simpl in Hmax. lia.
Qed.

Lemma undo_takes_the_stroke_just_drawn_witness :
  sent (handle "s2" later_second (UNDO_REQUEST "chaos-room-1")
          (after (handle "s1" later_second
                    (DRAW_ACTION "chaos-room-1" "user_a" "line" JNull) two_strokes)))
  = [(in_room two_strokes "chaos-room-1", UNDO_EXECUTE (new_event_id later_second))].
Proof.
  assert (canvas_events (db two_strokes) !! new_event_id later_second = None)
    as Hfresh by (vm_compute; reflexivity).
  assert (∀ id ev, canvas_events (db two_strokes) !! id = Some ev →
                   is_live "chaos-room-1" ev → created_at ev < db_now later_second)
    as Hnewer.
  { intros id ev Hrow Hlive.
    assert ((id, ev) ∈ map_to_list (canvas_events (db two_strokes))) as Hin
      by by apply elem_of_map_to_list.
    vm_compute in Hin.
    apply elem_of_cons in Hin as [Heq|Hin];
      [|apply elem_of_cons in Hin as [Heq|Hin];
        [|by apply not_elem_of_nil in Hin]];
      injection Heq as _ ->; reflexivity. }
  exact (undo_takes_the_stroke_just_drawn "s1" later_second "s2" later_second
           two_strokes "chaos-room-1" "user_a" "line" JNull
           eq_refl eq_refl eq_refl Hfresh Hnewer).
Defined.

(** ** Ids made from the clock *)

Lemma handle_CREATE_TRIP s e σ r title :
  store_runs σ (write_ok e) sql_insert_trip 3 →
  trips (db σ) !! new_trip_id e = None →
  handle s e (CREATE_TRIP r title) σ
  = {| completed := true;
       after := with_db (with_trips (<[new_trip_id e := created e r title]>
                                       (trips (db σ))) (db σ)) σ;
       sent := [(in_room σ r, TRIP_CREATED (new_trip_id e) r title)] |}.
Proof.
  intros Hexec Hfree. unfold handle, handler, on_CREATE_TRIP, bind at 1.
  erewrite (execute_runs σ [] _ _ _ _ _ Hexec); [done|].
  unfold insert_trip. fold (new_trip_id e). by rewrite Hfree.
Qed.

Lemma create_trip_taken s e σ r title :
  is_Some (trips (db σ) !! new_trip_id e) →
  handle s e (CREATE_TRIP r title) σ = {| completed := false; after := σ; sent := [] |}.
Proof.
  intros [row Hrow]. unfold handle, handler, on_CREATE_TRIP, bind at 1.
  rewrite execute_violates; [done|].
  unfold insert_trip. fold (new_trip_id e). by rewrite Hrow.
Qed.

Lemma create_trip_refused s e σ r title :
  helper_runs (pgPool σ) (write_ok e) sql_insert_trip 3 = false →
  handle s e (CREATE_TRIP r title) σ = {| completed := false; after := σ; sent := [] |}.
Proof.
  intros Hdown. unfold handle, handler, on_CREATE_TRIP, bind at 1.
  by rewrite execute_refused.
Qed.

Lemma send_message_taken s e σ r userId text :
  is_Some (messages (db σ) !! new_message_id e) →
  handle s e (SEND_MESSAGE r userId text) σ
  = {| completed := false; after := σ; sent := [] |}.
Proof.
  intros [row Hrow]. unfold handle, handler, on_SEND_MESSAGE, bind at 1.
  rewrite execute_violates; [done|].
  unfold insert_message. fold (new_message_id e). by rewrite Hrow.
Qed.

Lemma send_message_stores_id s e σ r userId text :
  store_runs σ (write_ok e) sql_insert_message 5 →
  is_Some (messages (db (after (handle s e (SEND_MESSAGE r userId text) σ)))
             !! new_message_id e).
Proof.
  intros Hexec.
  destruct (messages (db σ) !! new_message_id e) as [row|] eqn:Hkey.
  - rewrite send_message_taken by by exists row. by exists row.
  - unfold handle, handler, on_SEND_MESSAGE, bind at 1.
    erewrite (execute_runs σ [] _ _ _ _ _ Hexec).
    2: { unfold insert_message. fold (new_message_id e). by rewrite Hkey. }
    simpl. rewrite lookup_insert_eq. by eexists.
Qed.

(** X14.  Two CREATE_TRIP requests that read the same millisecond from
    the clock get the same id: once the first has reached the store, the
    second is rejected, stores nothing and announces nothing, whatever
    its room and title.  The same holds for two SEND_MESSAGE requests. *)
Theorem same_millisecond_requests_collide s1 e1 s2 e2 σ r1 title1 r2 title2
    u1 text1 u2 text2 :
  store_runs σ (write_ok e1) sql_insert_trip 3 →
  store_runs σ (write_ok e1) sql_insert_message 5 →
  now e2 = now e1 →
  (let σ1 := after (handle s1 e1 (CREATE_TRIP r1 title1) σ) in
   handle s2 e2 (CREATE_TRIP r2 title2) σ1
   = {| completed := false; after := σ1; sent := [] |})
  ∧ (let σ1 := after (handle s1 e1 (SEND_MESSAGE r1 u1 text1) σ) in
     handle s2 e2 (SEND_MESSAGE r2 u2 text2) σ1
     = {| completed := false; after := σ1; sent := [] |}).
Proof.
  intros Htrip Hmsg Hsame. split; intros σ1; subst σ1.
  - apply create_trip_taken. unfold new_trip_id. rewrite Hsame.
    fold (new_trip_id e1).
    destruct (trips (db σ) !! new_trip_id e1) as [row|] eqn:Hkey.
    + rewrite create_trip_taken by by exists row. by exists row.
    + rewrite handle_CREATE_TRIP by done. simpl. rewrite lookup_insert_eq.
      by eexists.
  - apply send_message_taken. unfold new_message_id. rewrite Hsame.
    fold (new_message_id e1). by apply send_message_stores_id.
Qed.

Lemma same_millisecond_requests_collide_witness :
  now calm = now calm
  ∧ completed (handle "s2" calm (CREATE_TRIP "other-room" "Kyoto")
                 (after (handle "s1" calm (CREATE_TRIP "chaos-room-1" "Osaka")
                           two_strokes)))
    = false.
Proof.
  split; [reflexivity|].
  pose proof (same_millisecond_requests_collide "s1" calm "s2" calm two_strokes
                "chaos-room-1" "Osaka" "other-room" "Kyoto" "" "" "" ""
                eq_refl eq_refl eq_refl) as [Htrip _].
  cbv zeta in Htrip. exact (f_equal completed Htrip).
Defined.

Lemma same_prefix_inj p a b : p +:+ a = p +:+ b → a = b.
Proof.
  induction p as [|c p IH]; [done|]. intros Heq. apply IH.
  change (String c (p +:+ a) = String c (p +:+ b)) in Heq. by injection Heq.
Qed.

(** X15.  Requests that read different milliseconds never collide: after
    a CREATE_TRIP, a second one with another clock reading, on a store
    that runs its INSERT, goes through unless its id was already taken
    before the first. *)
Theorem different_millisecond_trips_both_stored s1 e1 s2 e2 σ r1 title1 r2 title2 :
  store_runs σ (write_ok e2) sql_insert_trip 3 →
  now e2 ≠ now e1 →
  trips (db σ) !! new_trip_id e2 = None →
  let σ1 := after (handle s1 e1 (CREATE_TRIP r1 title1) σ) in
  completed (handle s2 e2 (CREATE_TRIP r2 title2) σ1) = true
  ∧ trips (db (after (handle s2 e2 (CREATE_TRIP r2 title2) σ1))) !! new_trip_id e2
    = Some (created e2 r2 title2).
Proof.
  intros Hrun Hdiff Hfree σ1.
  assert (new_trip_id e1 ≠ new_trip_id e2) as Hids.
  { unfold new_trip_id. intros Heq%same_prefix_inj. apply Hdiff. symmetry.
    by apply pretty_Z_inj. }
  assert (store_runs σ1 (write_ok e2) sql_insert_trip 3
          ∧ trips (db σ1) !! new_trip_id e2 = None) as [Hrun1 Hfree1].
  { subst σ1.
    destruct (helper_runs (pgPool σ) (write_ok e1) sql_insert_trip 3) eqn:Hrun0.
    - destruct (trips (db σ) !! new_trip_id e1) as [row|] eqn:Hkey.
      + rewrite create_trip_taken by by exists row. done.
      + rewrite handle_CREATE_TRIP by done. simpl. split; [done|].
        by rewrite lookup_insert_ne.
    - rewrite create_trip_refused by done. done. }
  rewrite handle_CREATE_TRIP by done. simpl. split; [done|].
  by rewrite lookup_insert_eq.
Qed.

Lemma different_millisecond_trips_both_stored_witness :
  now later_second ≠ now calm
  ∧ completed (handle "s2" later_second (CREATE_TRIP "chaos-room-1" "Kyoto")
                 (after (handle "s1" calm (CREATE_TRIP "chaos-room-1" "Osaka")
                           two_strokes)))
    = true.
Proof.
  assert (now later_second ≠ now calm) as Hdiff by (intros Heq; discriminate Heq).
  split; [exact Hdiff|].
  assert (trips (db two_strokes) !! new_trip_id later_second = None) as Hfree
    by (vm_compute; reflexivity).
  pose proof (different_millisecond_trips_both_stored "s1" calm "s2" later_second
                two_strokes "chaos-room-1" "Osaka" "chaos-room-1" "Kyoto"
                eq_refl Hdiff Hfree) as Hthm.
  cbv zeta in Hthm. exact (proj1 Hthm).
Defined.

(** ** Joining *)

(** X16.  When the store does not answer the SELECT of a join, the socket
    is in the room all the same, but it receives no SYNC_TRIPS and the
    room receives no USER_JOINED. *)
Theorem join_room_without_store s e σ r :
  helper_runs (pgPool σ) (read_ok e) sql_select_trips 1 = false →
  let st := handle s e (join_room r) σ in
  completed st = false
  ∧ s ∈ in_room (after st) r
  ∧ db (after st) = db σ
  ∧ sent st = [].
Proof.
  intros Hdown st. subst st. split; [|split; [|split]].
  - run_handler. by rewrite Hdown.
  - rewrite in_room_after, decide_True by done. set_solver.
  - run_handler. by rewrite Hdown.
  - run_handler. by rewrite Hdown.
Qed.

Lemma join_room_without_store_witness :
  helper_runs (pgPool two_strokes) (read_ok store_down) sql_select_trips 1 = false
  ∧ "s3" ∈ in_room (after (handle "s3" store_down (join_room "chaos-room-1")
                             two_strokes)) "chaos-room-1"
  ∧ sent (handle "s3" store_down (join_room "chaos-room-1") two_strokes) = [].
Proof.
  split; [reflexivity|].
  pose proof (join_room_without_store "s3" store_down two_strokes "chaos-room-1"
                eq_refl) as Hthm.
  cbv zeta in Hthm. destruct Hthm as (_ & Hin & _ & Hsent).
  split; [exact Hin|exact Hsent].
Defined.

Lemma elem_of_select_trips r d id row :
  (id, row) ∈ select_trips r d ↔ trips d !! id = Some row ∧ trip_room_id row = r.
Proof.
  unfold select_trips. rewrite list_elem_of_filter, elem_of_map_to_list.
  simpl. tauto.
Qed.

(** X17.  A trip created in a room is sent to whoever joins that room
    afterwards, with the id that TRIP_CREATED announced; and the trips a
    join sends are exactly the stored trips of that room, none of
    another. *)
Theorem created_trip_is_sent_on_join s1 e1 s2 e2 σ r title :
  store_runs σ (write_ok e1) sql_insert_trip 3 →
  store_runs σ (read_ok e2) sql_select_trips 1 →
  trips (db σ) !! new_trip_id e1 = None →
  let st1 := handle s1 e1 (CREATE_TRIP r title) σ in
  let st2 := handle s2 e2 (join_room r) (after st1) in
  sent st1 = [(in_room σ r, TRIP_CREATED (new_trip_id e1) r title)]
  ∧ ∃ rows,
      sent st2 = [({[s2]}, SYNC_TRIPS rows); ({[s2]} ∪ in_room σ r, USER_JOINED s2)]
      ∧ (new_trip_id e1, created e1 r title) ∈ rows
      ∧ ∀ id row, (id, row) ∈ rows ↔
                  trips (db (after st1)) !! id = Some row ∧ trip_room_id row = r.
Proof.
  intros Hins Hsel Hfree st1 st2. subst st2 st1.
  rewrite handle_CREATE_TRIP by done. simpl. split; [done|].
  eexists. split; [by rewrite join_room_deliveries by done|]. split.
  - apply elem_of_select_trips. simpl. by rewrite lookup_insert_eq.
  - intros id row. apply elem_of_select_trips.
Qed.

Lemma created_trip_is_sent_on_join_witness :
  trips (db two_strokes) !! new_trip_id calm = None
  ∧ sent (handle "s1" calm (CREATE_TRIP "chaos-room-1" "Osaka") two_strokes)
    = [(in_room two_strokes "chaos-room-1",
        TRIP_CREATED (new_trip_id calm) "chaos-room-1" "Osaka")].
Proof.
  assert (trips (db two_strokes) !! new_trip_id calm = None) as Hfree
    by (vm_compute; reflexivity).
  split; [exact Hfree|].
  pose proof (created_trip_is_sent_on_join "s1" calm "s3" calm two_strokes
                "chaos-room-1" "Osaka" eq_refl eq_refl Hfree) as Hthm.
  cbv zeta in Hthm. exact (proj1 Hthm).
Defined.

(** ** The placeholder rewrite *)

Lemma question_marks_seq sql i n :
  question_marks sql i = seq i n → ∃ tail, sql = question_prefix n tail.
Proof.
  revert sql i. induction n as [|n IH]; intros sql i Heq; [by exists sql|].
  destruct sql as [|c rest]; [done|]. simpl in Heq.
  destruct (Ascii.eqb c "?") eqn:Hc.
  - apply Ascii.eqb_eq in Hc as ->. injection Heq as Heq.
    destruct (IH _ _ Heq) as (tail & ->). by exists tail.
  - pose proof (question_marks_from rest (S i)) as Hfrom.
    rewrite Heq in Hfrom. apply Forall_cons in Hfrom as [Hi _]. lia.
Qed.

Lemma shifted_seq (l : list nat) i n :
  (λ k : nat, (k + 1)%nat) <$> l = seq (i + 1) n → l = seq i n.
Proof.
  revert l i. induction n as [|n IH]; intros l i Heq; destruct l as [|k l];
    simpl in Heq; try done.
  injection Heq as Hk Hl. simpl. f_equal; [lia|].
  apply IH. exact Hl.
Qed.

(** X18.  The rewrite of [?] into numbered parameters numbers each by
    its offset in the text: the result is [$1 .. $n] only for a text
    that begins with [n] question marks, and never for a statement with
    a parameter that begins with a letter. *)
Theorem placeholders_numbered_only_for_question_prefix sql n :
  pg_placeholders sql = seq 1 n → ∃ tail, sql = question_prefix n tail.
Proof.
  unfold pg_placeholders. intros Heq. apply (question_marks_seq sql 0 n).
  by apply (shifted_seq _ 0 n).
Qed.

Lemma placeholders_numbered_only_for_question_prefix_witness :
  pg_placeholders "?? AND more" = seq 1 2
  ∧ ∃ tail, "?? AND more" = question_prefix 2 tail.
Proof.
  split; [reflexivity|].
  apply (placeholders_numbered_only_for_question_prefix "?? AND more" 2).
  reflexivity.
Defined.

Lemma postgres_helper_refused up sql n :
  (sql, n) ∈ helper_statements → helper_runs Postgres up sql n = false.
Proof.
  intros Hin. unfold helper_runs.
  pose proof postgres_accepts_no_helper_statement as Hall.
  rewrite Forall_forall in Hall. pose proof (Hall (sql, n) Hin) as Hno.
  simpl in Hno. rewrite Hno. apply andb_false_r.
Qed.

(** X19.  On the PostgreSQL branch, a store that refuses statements
    whose parameters are not [$1 .. $n] refuses every statement sent
    through [query], [get] and [execute]: each handler that calls one of
    them is rejected, leaves all tables as they were and emits nothing,
    while UPDATE_PROFILE, whose text is numbered by hand, goes through. *)
Theorem postgres_rejects_every_helper_call s e m σ :
  pgPool σ = Postgres →
  calls_helper m = true →
  completed (handle s e m σ) = false
  ∧ db (after (handle s e m σ)) = db σ
  ∧ sent (handle s e m σ) = []
  ∧ ∀ r userId nick avatarUrl,
      completed (handle s e (UPDATE_PROFILE r userId nick avatarUrl) σ) = write_ok e.
Proof.
  intros Hpg Hcalls. split; [|split; [|split]].
  4: { intros r userId nick avatarUrl. rewrite handle_UPDATE_PROFILE.
       by destruct (write_ok e). }
  all: destruct m; try discriminate; simpl in Hcalls; run_handler;
    rewrite ?Hcalls; simpl; rewrite Hpg;
    rewrite postgres_helper_refused
      by (unfold helper_statements; rewrite !elem_of_cons; tauto);
    done.
Qed.

Lemma postgres_rejects_every_helper_call_witness :
  calls_helper (UNDO_REQUEST "chaos-room-1") = true
  ∧ sent (handle "s1" calm (UNDO_REQUEST "chaos-room-1")
            {| pgPool := Postgres; db := db two_strokes;
               members := members two_strokes |}) = [].
Proof.
  split; [reflexivity|].
  apply (postgres_rejects_every_helper_call "s1" calm (UNDO_REQUEST "chaos-room-1")
           {| pgPool := Postgres; db := db two_strokes;
              members := members two_strokes |}); reflexivity.
Defined.

(** ** More on undo *)

(** Every way an undo request can end. *)
Lemma undo_outcomes s e σ r :
  (after (handle s e (UNDO_REQUEST r) σ) = σ ∧ sent (handle s e (UNDO_REQUEST r) σ) = [])
  ∨ ∃ id ev,
      most_recent_live (canvas_events (db σ)) r id ev
      ∧ handle s e (UNDO_REQUEST r) σ
        = {| completed := true; after := marked id ev σ;
             sent := [(in_room σ r, UNDO_EXECUTE id)] |}.
Proof.
  destruct (helper_runs (pgPool σ) (read_ok e) sql_select_last_event 1) eqn:Hget.
  - destruct (select_last_event r (tie e) (db σ)) as [[id ev]|] eqn:Hsel.
    + destruct (helper_runs (pgPool σ) (write_ok e) sql_mark_undone 1) eqn:Hexec.
      * right. exists id, ev.
        pose proof (select_last_event_Some _ _ _ _ _ Hsel) as Hrecent.
        split; [done|]. rewrite handle_UNDO_REQUEST by done. rewrite Hsel.
        unfold marked. by rewrite (alter_set_undone _ _ ev) by apply Hrecent.
      * left. run_handler. rewrite Hget. simpl. rewrite Hsel. simpl.
        by rewrite Hexec.
    + left. run_handler. rewrite Hget. simpl. by rewrite Hsel.
  - left. run_handler. by rewrite Hget.
Qed.

(** X20.  An undo request for one room never touches the events of
    another room, whatever the store does. *)
Theorem undo_leaves_other_rooms s e σ r id ev :
  canvas_events (db σ) !! id = Some ev →
  ev_room_id ev ≠ r →
  canvas_events (db (after (handle s e (UNDO_REQUEST r) σ))) !! id = Some ev.
Proof.
  intros Hrow Hother.
  destruct (undo_outcomes s e σ r) as [[-> _]|(id0 & ev0 & Hrecent & ->)]; [done|].
  simpl. destruct Hrecent as (Hrow0 & [Hroom0 _] & _).
  rewrite lookup_insert_ne; [done|]. intros <-. congruence.
Qed.

Lemma undo_leaves_other_rooms_witness :
  canvas_events (db two_strokes) !! "evt_1_a"
  = Some (stroke "chaos-room-1" "user_a" 1700000000 0)
  ∧ canvas_events (db (after (handle "s1" calm (UNDO_REQUEST "other-room")
                                two_strokes))) !! "evt_1_a"
    = Some (stroke "chaos-room-1" "user_a" 1700000000 0).
Proof.
  assert (canvas_events (db two_strokes) !! "evt_1_a"
          = Some (stroke "chaos-room-1" "user_a" 1700000000 0)) as Hrow
    by (vm_compute; reflexivity).
  split; [exact Hrow|].
  apply (undo_leaves_other_rooms "s1" calm two_strokes "other-room" "evt_1_a" _ Hrow).
  intros Heq. discriminate Heq.
Defined.

Lemma undone_ids_cons to ev out :
  undone_ids ((to, ev) :: out)
  = match ev with
    | UNDO_EXECUTE id => id :: undone_ids out
    | _ => undone_ids out
    end.
Proof. unfold undone_ids, events. simpl. by destruct ev. Qed.

(** X21.  A series of undo requests for a room with [n] live events, on
    a store that runs their statements: the first [n] requests each undo
    one event, all different and all live at the start; every further
    request finds nothing and broadcasts nothing.  Afterwards as many
    live events are left as were not reached. *)
Theorem undo_requests_exhaust_the_room who σ r :
  Forall (λ se : socket_id * env,
            store_runs σ (read_ok se.2) sql_select_last_event 1
            ∧ store_runs σ (write_ok se.2) sql_mark_undone 1) who →
  let n := length (live_events r (canvas_events (db σ))) in
  let end_ := run (undo_requests r who) σ in
  length end_.2 = (length who `min` n)%nat
  ∧ length (undone_ids end_.2) = (length who `min` n)%nat
  ∧ NoDup (undone_ids end_.2)
  ∧ (∀ id, id ∈ undone_ids end_.2 →
           ∃ ev, canvas_events (db σ) !! id = Some ev ∧ is_live r ev)
  ∧ length (live_events r (canvas_events (db end_.1))) = (n - length who)%nat.
Proof.
  intros Hruns n end_. subst n end_.
  revert σ Hruns. induction who as [|[s e] who IH]; intros σ Hruns.
  - simpl. split; [done|]. split; [done|]. split; [constructor|].
    split; [|lia]. intros id Hin. by apply not_elem_of_nil in Hin.
  - apply Forall_cons in Hruns as [[Hget Hexec] Hruns]. simpl in Hget, Hexec.
    unfold undo_requests. rewrite fmap_cons. fold (undo_requests r who).
    rewrite run_cons. cbn [fst snd].
    destruct (live_events r (canvas_events (db σ))) as [|kv l] eqn:Hlive.
    + rewrite undo_noop by done. cbn [after sent app].
      destruct (IH σ Hruns) as (Hlen & Hids & Hnodup & Hstart & Hleft).
      rewrite Hlive in Hlen, Hids, Hleft. simpl in Hlen, Hids, Hleft.
      split; [simpl; lia|]. split; [simpl; lia|]. split; [done|].
      split; [done|]. simpl. lia.
    + destruct (undo_step s e σ r Hget Hexec) as (id & ev & Hrecent & ->);
        [by rewrite Hlive|]. cbn [after sent app].
      destruct (IH (marked id ev σ) Hruns) as (Hlen & Hids & Hnodup & Hstart & Hleft).
      destruct Hrecent as (Hrow & Hislive & _).
      pose proof (live_events_marked r _ id ev Hrow Hislive) as Hcount.
      rewrite Hlive in Hcount. simpl in Hcount, Hlen, Hids, Hleft, Hstart.
      rewrite undone_ids_cons.
      assert (∀ id', id' ∈ undone_ids (run (undo_requests r who) (marked id ev σ)).2 →
                     id' ≠ id ∧ ∃ ev', canvas_events (db σ) !! id' = Some ev'
                                       ∧ is_live r ev') as Hrest.
      { intros id' Hin. destruct (Hstart id' Hin) as (ev' & Hrow' & Hlive').
        destruct (decide (id' = id)) as [->|Hne].
        - rewrite lookup_insert_eq in Hrow'. injection Hrow' as <-.
          by destruct Hlive' as [_ Hun].
        - rewrite lookup_insert_ne in Hrow' by done. split; [done|]. by exists ev'. }
      split; [simpl; lia|]. split; [simpl; lia|]. split; [|split; [|simpl; lia]].
      * apply NoDup_cons. split; [|done]. intros Hin. by destruct (Hrest id Hin).
      * intros id' [->|Hin]%elem_of_cons; [by exists ev|]. by destruct (Hrest id' Hin).
Qed.

Lemma undo_requests_exhaust_the_room_witness :
  length (live_events "chaos-room-1" (canvas_events (db two_strokes))) = 2%nat
  ∧ length (run (undo_requests "chaos-room-1"
                   [("s1", calm); ("s2", later_second); ("s1", calm)]) two_strokes).2
    = 2%nat.
Proof.
  assert (length (live_events "chaos-room-1" (canvas_events (db two_strokes))) = 2%nat)
    as Hlive by (vm_compute; reflexivity).
  split; [exact Hlive|].
  pose proof (undo_requests_exhaust_the_room
                [("s1", calm); ("s2", later_second); ("s1", calm)] two_strokes
                "chaos-room-1") as Hthm.
  cbv zeta in Hthm. rewrite Hlive in Hthm. apply Hthm.
  repeat constructor.
Defined.

(** * The application against the server *)



(** ** The canvas *)












(** In that run both undos take strokes stored before the browser
    listened (they were drawn in the same second as its own stroke), so
    the browser ends with the two strokes drawn during the run, which
    are the live events of the room. *)
Example canvas_after_the_witness_run :
  let occ := [Request "s1" calm (DRAW_ACTION "chaos-room-1" "user_a" "line" JNull);
              Connects "s3"; Request "s3" calm (join_room "chaos-room-1");
              Request "s3" calm (UNDO_REQUEST "chaos-room-1"); Closes "s2";
              Request "s3" later_second (UNDO_REQUEST "chaos-room-1");
              Request "s3" later_second
                (DRAW_ACTION "chaos-room-1" "user_c" "line" JNull);
              Request "s3" store_down
                (DRAW_ACTION "chaos-room-1" "user_c" "erase" JNull)] in
  App.actionId
    <$> received App.canvas_receives "s1" (serve occ lobby_with_strokes).2 []
  = [new_event_id calm; new_event_id later_second]
  ∧ undone_ids (serve occ lobby_with_strokes).2 = ["evt_1_a"; "evt_2_b"].
Proof. vm_compute. split; reflexivity. Qed.

(** A stroke addressed to the room named by the socket id of a browser
    lands on its canvas though it is no event of the room of the
    application. *)
Example stroke_sent_to_a_socket_id :
  let st := handle "s2" calm (DRAW_ACTION "s1" "user_b" "line" JNull) lobby in
  App.actionId <$> received App.canvas_receives "s1" (sent st) []
  = [new_event_id calm]
  ∧ ev_room_id <$> canvas_events (db (after st)) !! new_event_id calm = Some "s1".
Proof. vm_compute. split; reflexivity. Qed.

(** ** The pin list *)








(** In that run the browser ends with pin-3 on day 5, as the store has it. *)
Example pin_list_after_the_witness_run :
  let occ := [Request "s2" calm
                (VOTE_FINAL_RESULT "chaos-room-1" (JBool true) "pin-3" 2);
              Request "s1" calm (GET_PINS "trip_1"); Closes "s2";
              Request "s3" store_down
                (VOTE_FINAL_RESULT "chaos-room-1" (JBool true) "pin-3" 4);
              Request "s3" later_second
                (VOTE_FINAL_RESULT "chaos-room-1" (JBool true) "pin-3" 5)] in
  (λ p, (App.pd_id p, App.pd_assigned_day p))
    <$> received App.pins_receive "s1" (serve occ lobby_with_pin_3).2 [pin_3_shown]
  = [("pin-3", 5)]
  ∧ assigned_day <$> pins (db (serve occ lobby_with_pin_3).1) !! "pin-3" = Some 5.
Proof. vm_compute. split; reflexivity. Qed.

(** A SET_PIN_TIME breaks that agreement: the store has the new day, the
    pin list still the old one. *)
Example set_pin_time_is_not_followed :
  ¬ pins_agree
      (received App.pins_receive "s1"
         (sent (handle "s2" calm (SET_PIN_TIME "chaos-room-1" "pin-3" "09:00" 2)
                  lobby_with_pin_3)) [pin_3_shown])
      (pins (db (after (handle "s2" calm
                          (SET_PIN_TIME "chaos-room-1" "pin-3" "09:00" 2)
                          lobby_with_pin_3)))).
Proof.
  intros Hagree. destruct (Hagree pin_3_shown) as (row & Hrow & Hday).
  { vm_compute. left. }
  vm_compute in Hrow. injection Hrow as <-. discriminate Hday.
Qed.

(** ** Presence *)


(** * All or nothing *)

(** X25.  Every handler that is rejected has written nothing to any
    table and has emitted nothing: each makes its store call before its
    first emit and stops at the failure. *)
Theorem rejected_handler_wrote_and_sent_nothing s e m σ :
  completed (handle s e m σ) = false →
  db (after (handle s e m σ)) = db σ ∧ sent (handle s e m σ) = [].
Proof.
  destruct m; run_handler; repeat case_match; simplify_eq/=; done.
Qed.

Lemma rejected_handler_wrote_and_sent_nothing_witness :
  completed (handle "s1" store_down (SEND_MESSAGE "chaos-room-1" "user_a" "hello")
               two_strokes) = false
  ∧ sent (handle "s1" store_down (SEND_MESSAGE "chaos-room-1" "user_a" "hello")
            two_strokes) = [].
Proof.
  assert (completed (handle "s1" store_down
                       (SEND_MESSAGE "chaos-room-1" "user_a" "hello") two_strokes)
          = false) as Hfail by reflexivity.
  split; [exact Hfail|].
  exact (proj2 (rejected_handler_wrote_and_sent_nothing "s1" store_down
                  (SEND_MESSAGE "chaos-room-1" "user_a" "hello") two_strokes Hfail)).
Defined.

(** X26.  A cursor move and a drag start go to every socket of the room
    except the one that sent them, which never receives its own. *)
Theorem cursor_and_drag_skip_the_sender s e σ r userId center pinId :
  sent (handle s e (MOVE_CURSOR r userId center) σ)
  = [(in_room σ r ∖ {[s]}, USER_CURSOR_MOVED userId center)]
  ∧ sent (handle s e (DRAG_PIN r pinId userId) σ)
    = [(in_room σ r ∖ {[s]}, PIN_DRAG_START pinId userId)]
  ∧ ¬ reaches s (sent (handle s e (MOVE_CURSOR r userId center) σ))
  ∧ ¬ reaches s (sent (handle s e (DRAG_PIN r pinId userId) σ))
  ∧ ∀ other, other ∈ in_room σ r → other ≠ s →
             reaches other (sent (handle s e (MOVE_CURSOR r userId center) σ))
             ∧ reaches other (sent (handle s e (DRAG_PIN r pinId userId) σ)).
Proof.
  assert (∀ ev, ¬ reaches s [(in_room σ r ∖ {[s]}, ev)]) as Hskip.
  { intros ev [Hin|Hnone]%Exists_cons; [|by apply Exists_nil in Hnone].
    simpl in Hin. apply elem_of_difference in Hin as [_ Hnot].
    apply Hnot. by apply elem_of_singleton. }
  split; [reflexivity|]. split; [reflexivity|].
  split; [apply Hskip|]. split; [apply Hskip|].
  intros other Hin Hne. split; apply Exists_cons_hd; simpl;
    apply elem_of_difference; (split; [done|]); by rewrite elem_of_singleton.
Qed.

(** X27.  A DRAW_ACTION is rejected exactly when the store does not run
    its INSERT or the id made from the clock reading and the random
    suffix is already taken. *)
Theorem draw_action_fails_exactly_when s e σ r userId type payload :
  completed (handle s e (DRAW_ACTION r userId type payload) σ) = false
  ↔ helper_runs (pgPool σ) (write_ok e) sql_insert_canvas_event 5 = false
    ∨ is_Some (canvas_events (db σ) !! new_event_id e).
Proof. apply draw_action_rejected_iff. Qed.
